(** * KidsJoy: the content-state and asset-lifecycle controller

    A shallow embedding of the controller code of [src/App.tsx] and of the
    remote-service adapters of [src/services/geminiService.ts].

    [src/App.tsx] holds two revisions of the component: the first one
    (storage key [kids_joy_v5_data], cache prefix [img_v5_]) is embedded in
    full; of the second one (storage key [kids_joy_v9_data]) the handlers that
    differ and that a stated property depends on are embedded in [Module V9].

    Handlers are asynchronous functions closing over the values of one render.
    They are embedded in a state-and-exception monad over a [World]; a handler
    takes the render snapshot ([UI]) it closes over as an argument, reads the
    React state through that snapshot and writes it through the setters.
    The snapshot need not be the state of the world the handler runs in: a
    handler whose button was pressed in an earlier render is run on that
    render's snapshot, after the updates that happened in between.
    Everything outside the component (the remote model, the clock, the audio
    player, the key-selection dialog) answers through a [Host]. *)

From Stdlib Require Import ZArith NArith Ascii String List Decimal DecimalString DecimalN.
From stdpp Require Import base option list gmap strings.

Local Open Scope string_scope.

(** ** Strings *)

Module Str.

(** [String.prototype.startsWith]. *)
Fixpoint startsWith (p s : string) : bool :=
  match p, s with
  | EmptyString, _ => true
  | String a p', String b s' => if decide (a = b) then startsWith p' s' else false
  | String _ _, EmptyString => false
  end.

(** [String.prototype.includes]. *)
Fixpoint includes (s p : string) : bool :=
  startsWith p s ||
  match s with
  | EmptyString => false
  | String _ s' => includes s' p
  end.

(** [p] removed from the front of [s], when it is there. *)
Fixpoint strip (p s : string) : option string :=
  match p, s with
  | EmptyString, _ => Some s
  | String a p', String b s' => if decide (a = b) then strip p' s' else None
  | String _ _, EmptyString => None
  end.

(** Decimal rendering of a non-negative integer, as a template literal
    renders a JS number that is an integer below 2^53. *)
Definition of_N (n : N) : string := NilZero.string_of_uint (N.to_uint n).
Definition of_nat (n : nat) : string := of_N (N.of_nat n).

(** A text in which every apostrophe stands for a double quote: the way
    JSON texts are written in the examples of this file. *)
Fixpoint dq (s : string) : string :=
  match s with
  | EmptyString => EmptyString
  | String c s' => String (if (N_of_ascii c =? 39)%N then ascii_of_N 34 else c) (dq s')
  end.

(** The characters of a string. *)
Fixpoint chars (s : string) : list ascii :=
  match s with
  | EmptyString => []
  | String c s' => c :: chars s'
  end.

End Str.

(** ** JavaScript values

    What [JSON.parse] can return, and [undefined] for what a property access
    on such a value can return.  A number is kept as the literal that denotes
    it: its floating-point value plays no role in the controller. *)

#[local] Unset Elimination Schemes.
Inductive JSValue : Type :=
  | JUndefined
  | JNull
  | JBool (b : bool)
  | JNum (literal : string)
  | JStr (s : string)
  | JArr (elements : list JSValue)
  | JObj (members : list (string * JSValue)).

#[local] Set Elimination Schemes.

(** The own property [k] of a parsed object: the last member of that name
    wins, as in [JSON.parse]; [undefined] when there is none. *)
Definition member (k : string) (ms : list (string * JSValue)) : JSValue :=
  fold_left (fun found '(k', v) => if decide (k' = k) then v else found) ms JUndefined.

(** ** JSON.parse

    A recursive-descent recogniser of the JSON grammar (ECMA-404), returning
    [None] where [JSON.parse] throws a [SyntaxError].  A JS string is modelled
    by a byte string; a [\uXXXX] escape is stored as the UTF-8 bytes of its
    code unit. *)

Module JSON.

(** The double quote. *)
Definition quote : ascii := ascii_of_N 34.

Definition is_ws (c : ascii) : bool :=
  Ascii.eqb c " " || Ascii.eqb c (ascii_of_N 9)
  || Ascii.eqb c (ascii_of_N 10) || Ascii.eqb c (ascii_of_N 13).

Definition is_digit (c : ascii) : bool :=
  ((48 <=? N_of_ascii c) && (N_of_ascii c <=? 57))%N.

Fixpoint skip_ws (s : string) : string :=
  match s with
  | String c r => if is_ws c then skip_ws r else s
  | EmptyString => s
  end.

(** What follows the first character of [s], when that character is [a]. *)
Definition starts (a : ascii) (s : string) : option string :=
  match s with
  | String c r => if Ascii.eqb c a then Some r else None
  | EmptyString => None
  end.

(** The longest prefix of digits, and what follows it. *)
Fixpoint digits (s : string) : string * string :=
  match s with
  | String c r =>
      if is_digit c then let '(d, r') := digits r in (String c d, r') else ("", s)
  | EmptyString => ("", "")
  end.

Definition digits1 (s : string) : option (string * string) :=
  match digits s with
  | (EmptyString, _) => None
  | (d, r) => Some (d, r)
  end.

(** The parts of a number literal: a zero, or a non-zero digit followed by
    digits; optionally a point and one or more digits; optionally an exponent
    mark, a sign and one or more digits. *)
Definition int_part (s : string) : option (string * string) :=
  match starts "0" s with
  | Some r => Some ("0", r)
  | None => digits1 s
  end.

Definition frac_part (s : string) : option (string * string) :=
  match starts "." s with
  | Some r => '(f, r') ← digits1 r; Some ("." +:+ f, r')
  | None => Some ("", s)
  end.

Definition exp_sign (s : string) : string * string :=
  match starts "+" s with
  | Some r => ("+", r)
  | None =>
      match starts "-" s with
      | Some r => ("-", r)
      | None => ("", s)
      end
  end.

Definition exp_part (s : string) : option (string * string) :=
  match s with
  | String c r =>
      if Ascii.eqb c "e" || Ascii.eqb c "E" then
        let '(sg, r1) := exp_sign r in
        '(e, r') ← digits1 r1; Some (String c (sg +:+ e), r')
      else Some ("", s)
  | EmptyString => Some ("", s)
  end.

(** A number literal: an optional minus sign, then the three parts. *)
Definition number (s : string) : option (string * string) :=
  let '(sign, s1) :=
    match starts "-" s with
    | Some r => ("-", r)
    | None => ("", s)
    end in
  '(i, s2) ← int_part s1;
  '(f, s3) ← frac_part s2;
  '(e, s4) ← exp_part s3;
  Some (sign +:+ i +:+ f +:+ e, s4).

Definition hex (c : ascii) : option N :=
  let n := N_of_ascii c in
  if ((48 <=? n) && (n <=? 57))%N then Some (n - 48)%N
  else if ((97 <=? n) && (n <=? 102))%N then Some (n - 87)%N
  else if ((65 <=? n) && (n <=? 70))%N then Some (n - 55)%N
  else None.

Definition hex4 (a b c d : ascii) : option N :=
  x ← hex a; y ← hex b; z ← hex c; w ← hex d;
  Some (((x * 16 + y) * 16 + z) * 16 + w)%N.

(** UTF-8 bytes of a code unit below 65536. *)
Definition utf8 (n : N) : string :=
  if (n <? 128)%N then String (ascii_of_N n) ""
  else if (n <? 2048)%N then
    String (ascii_of_N (192 + n / 64)) (String (ascii_of_N (128 + n mod 64)) "")
  else
    String (ascii_of_N (224 + n / 4096))
      (String (ascii_of_N (128 + (n / 64) mod 64))
         (String (ascii_of_N (128 + n mod 64)) "")).

(** The character a one-letter escape stands for. *)
Definition escape (e : ascii) : option ascii :=
  if Ascii.eqb e quote || Ascii.eqb e "\" || Ascii.eqb e "/" then Some e
  else if Ascii.eqb e "b" then Some (ascii_of_N 8)
  else if Ascii.eqb e "f" then Some (ascii_of_N 12)
  else if Ascii.eqb e "n" then Some (ascii_of_N 10)
  else if Ascii.eqb e "r" then Some (ascii_of_N 13)
  else if Ascii.eqb e "t" then Some (ascii_of_N 9)
  else None.

(** The characters of a string literal after its opening quote, up to and
    including the closing quote. *)
Fixpoint string_body (s : string) : option (string * string) :=
  match s with
  | EmptyString => None
  | String c r =>
      if Ascii.eqb c quote then Some ("", r)
      else if Ascii.eqb c "\" then
        match r with
        | String e r' =>
            if Ascii.eqb e "u" then
              match r' with
              | String h1 (String h2 (String h3 (String h4 r''))) =>
                  n ← hex4 h1 h2 h3 h4;
                  '(t, k) ← string_body r'';
                  Some (utf8 n +:+ t, k)
              | _ => None
              end
            else
              b ← escape e;
              '(t, k) ← string_body r';
              Some (String b t, k)
        | EmptyString => None
        end
      else if (N_of_ascii c <? 32)%N then None
      else '(t, k) ← string_body r; Some (String c t, k)
  end.

(** A value, the elements of an array after its first bracket, and the
    members of an object after its first brace.  Every call spends one unit of
    [fuel]; [fuel_enough] below shows that [parse] never runs out of it. *)
Fixpoint value (fuel : nat) (s : string) : option (JSValue * string) :=
  match fuel with
  | O => None
  | S fuel =>
      match skip_ws s with
      | EmptyString => None
      | String c r as t =>
          if Ascii.eqb c quote then
            '(str, k) ← string_body r; Some (JStr str, k)
          else if Ascii.eqb c "[" then
            match starts "]" (skip_ws r) with
            | Some k => Some (JArr [], k)
            | None => elements fuel r []
            end
          else if Ascii.eqb c "{" then
            match starts "}" (skip_ws r) with
            | Some k => Some (JObj [], k)
            | None => members fuel r []
            end
          else if Ascii.eqb c "n" then k ← Str.strip "null" t; Some (JNull, k)
          else if Ascii.eqb c "t" then k ← Str.strip "true" t; Some (JBool true, k)
          else if Ascii.eqb c "f" then k ← Str.strip "false" t; Some (JBool false, k)
          else '(lit, k) ← number t; Some (JNum lit, k)
      end
  end
with elements (fuel : nat) (s : string) (acc : list JSValue)
    : option (JSValue * string) :=
  match fuel with
  | O => None
  | S fuel =>
      match value fuel s with
      | None => None
      | Some (v, r) =>
          match starts "," (skip_ws r) with
          | Some k => elements fuel k (v :: acc)
          | None =>
              match starts "]" (skip_ws r) with
              | Some k => Some (JArr (rev (v :: acc)), k)
              | None => None
              end
          end
      end
  end
with members (fuel : nat) (s : string) (acc : list (string * JSValue))
    : option (JSValue * string) :=
  match fuel with
  | O => None
  | S fuel =>
      match starts quote (skip_ws s) with
      | None => None
      | Some r =>
          match string_body r with
          | None => None
          | Some (key, r1) =>
              match starts ":" (skip_ws r1) with
              | None => None
              | Some r2 =>
                  match value fuel r2 with
                  | None => None
                  | Some (v, r3) =>
                      match starts "," (skip_ws r3) with
                      | Some k => members fuel k ((key, v) :: acc)
                      | None =>
                          match starts "}" (skip_ws r3) with
                          | Some k => Some (JObj (rev ((key, v) :: acc)), k)
                          | None => None
                          end
                      end
                  end
              end
          end
      end
  end.

(** The whole text is one value with white space around it. *)
Definition document (fuel : nat) (text : string) : option JSValue :=
  match value fuel text with
  | Some (v, r) =>
      match skip_ws r with
      | EmptyString => Some v
      | String _ _ => None
      end
  | None => None
  end.

(** [JSON.parse(text)] *)
Definition parse (text : string) : option JSValue :=
  document (2 * String.length text + 2) text.

End JSON.

(** ** Data model

    The declarations of [./types] by the fields the code reads and writes.
    The three fields of an item that [expandCategoryItems] copies from the
    remote answer hold whatever value the answer had there. *)

Module Item.
Record t : Type := mk {
  id : string;
  name : JSValue;
  persianName : JSValue;
  emoji : JSValue;
  color : string
}.
End Item.

Module Category.
Record t : Type := mk {
  id : string;
  name : string;
  icon : string;
  color : string;
  items : list Item.t
}.

(** [{ ...c, items }] *)
Definition with_items (c : t) (its : list Item.t) : t :=
  mk (id c) (name c) (icon c) (color c) its.
End Category.

Inductive View : Type :=
  | main | alphabet | learning_detail | game_types | game_cats | game_active.

Definition GameType : Type := string.

Record GameState : Type := mkGameState {
  view : View;
  selectedCategory : option Category.t;
  selectedGame : option GameType;
  score : Z
}.

(** [{ ...s, selectedCategory }] and [{ ...s, view }] *)
Definition with_selectedCategory (s : GameState) (c : option Category.t) : GameState :=
  mkGameState (view s) c (selectedGame s) (score s).
Definition with_view (s : GameState) (v : View) : GameState :=
  mkGameState v (selectedCategory s) (selectedGame s) (score s).

(** The React state of the component: the values one render closes over. *)
Record UI : Type := mkUI {
  categories : list Category.t;
  state : GameState;
  learningIndex : Z;
  showPersian : bool;
  isSpeaking : bool;
  isExpanding : bool;
  isGeneratingImg : bool;
  itemImage : option string
}.

(** ** Thrown values, requests and events *)

(** A thrown value, which may be anything: the name of its constructor, and
    what [error?.message] reads on it ([undefined] on a value that has no
    such property, and on [null] and [undefined] themselves). *)
Record Error : Type := mkError {
  ename : string;
  message : JSValue
}.

(** The values that [||] passes over: [undefined], [null], [false], the
    empty string, and a number that is zero. *)
Fixpoint zero_mantissa (lit : string) : bool :=
  match lit with
  | EmptyString => true
  | String c r =>
      if Ascii.eqb c "e" || Ascii.eqb c "E" then true
      else (Ascii.eqb c "0" || Ascii.eqb c "." || Ascii.eqb c "-") && zero_mantissa r
  end.

Definition falsy (v : JSValue) : bool :=
  match v with
  | JUndefined | JNull | JBool false | JStr EmptyString => true
  | JNum lit => zero_mantissa lit
  | _ => false
  end.

(** The values that have an [includes] method: strings and arrays. *)
Definition searchable (v : JSValue) : bool :=
  match v with
  | JStr _ | JArr _ => true
  | _ => false
  end.

(** What [v.includes(needle)] answers on such a value: whether the string
    holds [needle], or whether [needle] is an element of the array. *)
Definition mentions (v : JSValue) (needle : string) : bool :=
  match v with
  | JStr s => Str.includes s needle
  | JArr l => existsb (fun x => match x with JStr t => String.eqb t needle | _ => false end) l
  | _ => false
  end.

(** The message of a thrown value when it is a string, as the console shows
    it. *)
Definition message_text (error : Error) : string :=
  match message error with
  | JStr s => s
  | _ => ""
  end.

(** [error?.message || ""] *)
Definition message_or_empty (error : Error) : JSValue :=
  if falsy (message error) then JStr "" else message error.

(** The faults the engine itself raises in the code below; the wording of
    their messages is the engine's. *)
Inductive Fault : Type :=
  | BadJSON (text : string)
  | NotAFunction (callee : string)
  | PropertyOfNull (property : string).

(** A prompt, by the template it instantiates and the values interpolated
    into it.  The first three are the templates of services/geminiService.ts;
    the last two are those of unnamed/part_000, which words the expansion and
    the image prompt differently (its speech prompt is the same). *)
Inductive Prompt : Type :=
  | ExpandPrompt (categoryName : string) (existingNames : list JSValue)
  | SpeechPrompt (text : string)
  | ImagePrompt (itemName : JSValue)
  | ExpandPrompt0 (categoryName : string) (existingNames : list JSValue)
  | ImagePrompt0 (itemName : JSValue).

Record Request : Type := mkRequest {
  model : string;
  contents : Prompt
}.

(** The parts of a [generateContent] answer the adapters read. *)
Record Part : Type := mkPart {
  inlineData : option (option string)  (* [part.inlineData?.data] *)
}.

Record Response : Type := mkResponse {
  text : option string;
  candidates : option (list (option (option (list Part))))
    (* [candidates?.[i]?.content?.parts] *)
}.

(** What the component does to the outside, in order. *)
Inductive Event : Type :=
  | EvGenerateContent (req : Request)
  | EvPlayTTSSound (audio text : string)
  | EvPlayLocalSpeech (text : string)
  | EvHasSelectedApiKey
  | EvOpenSelectKey
  | EvAlert (msg : string)
  | EvConsole (level msg : string).

(** Completion of a call: a value, or a thrown value (a rejected promise). *)
Inductive Completion (A : Type) : Type :=
  | Normal (a : A)
  | Throw (e : Error).
Arguments Normal {A} a.
Arguments Throw {A} e.

(** [window.aistudio] *)
Record AIStudio : Type := mkAIStudio {
  hasSelectedApiKey : list Event -> Completion bool;
  openSelectKey : list Event -> Completion unit
}.

(** The collaborators of the component.  Each answers as a function of what
    the component has done so far; the clock answers by the number of times
    it has been read. *)
Record Host : Type := mkHost {
  API_KEY : list Event -> option string;      (* [process.env.API_KEY] *)
  generateContent : list Event -> Request -> Completion Response;
  Date_now : nat -> N;
  playTTSSound : list Event -> string -> string -> Completion unit;
  playLocalSpeech : list Event -> string -> Completion unit;
  aistudio : option AIStudio;
  engine_message : Fault -> string
}.

(** ** The world and the monad of handlers *)

Record World : Type := mkWorld {
  ui : UI;
  imageStorage : gmap string string;
  clock : nat;
  log : list Event
}.

Definition M (A : Type) : Type := World -> Completion A * World.

Definition ret {A} (a : A) : M A := fun w => (Normal a, w).
Definition throw {A} (e : Error) : M A := fun w => (Throw e, w).
Definition bind {A B} (m : M A) (k : A -> M B) : M B :=
  fun w =>
    match m w with
    | (Normal a, w') => k a w'
    | (Throw e, w') => (Throw e, w')
    end.

(** [try { body } catch (e) { handler }] *)
Definition try_catch {A} (body : M A) (handler : Error -> M A) : M A :=
  fun w =>
    match body w with
    | (Normal a, w') => (Normal a, w')
    | (Throw e, w') => handler e w'
    end.

(** [try { body } finally { cleanup }] *)
Definition try_finally {A} (body : M A) (cleanup : M unit) : M A :=
  fun w =>
    let '(r, w') := body w in
    match cleanup w' with
    | (Normal _, w'') => (r, w'')
    | (Throw e, w'') => (Throw e, w'')
    end.

Declare Scope js_scope.
Delimit Scope js_scope with js.
Notation "'let*' x ':=' e 'in' k" := (bind e (fun x => k))
  (at level 10, x name, e at level 200, k at level 200) : js_scope.
Notation "e >> k" := (bind e (fun _ => k))
  (at level 62, right associativity) : js_scope.
Local Open Scope js_scope.

(** An asynchronous call on a collaborator: the call is recorded, and the
    collaborator answers from what had been recorded before it. *)
Definition call {A} (ev : Event) (answer : list Event -> Completion A) : M A :=
  fun w => (answer (log w), mkWorld (ui w) (imageStorage w) (clock w) (log w ++ [ev])).

(** A world with more in its log. *)
Definition logged (w : World) (evs : list Event) : World :=
  mkWorld (ui w) (imageStorage w) (clock w) (log w ++ evs).

(** An effect with no answer ([alert], [console.error]). *)
Definition emit (ev : Event) : M unit := call ev (fun _ => Normal tt).

Definition modify_ui (f : UI -> UI) : M unit :=
  fun w => (Normal tt, mkWorld (f (ui w)) (imageStorage w) (clock w) (log w)).

(** The state setters of [useState]. *)
Definition setCategories (v : list Category.t) : M unit :=
  modify_ui (fun u => mkUI v (state u) (learningIndex u) (showPersian u)
                        (isSpeaking u) (isExpanding u) (isGeneratingImg u) (itemImage u)).
Definition setState (f : GameState -> GameState) : M unit :=
  modify_ui (fun u => mkUI (categories u) (f (state u)) (learningIndex u) (showPersian u)
                        (isSpeaking u) (isExpanding u) (isGeneratingImg u) (itemImage u)).
Definition setLearningIndex (f : Z -> Z) : M unit :=
  modify_ui (fun u => mkUI (categories u) (state u) (f (learningIndex u)) (showPersian u)
                        (isSpeaking u) (isExpanding u) (isGeneratingImg u) (itemImage u)).
Definition setShowPersian (v : bool) : M unit :=
  modify_ui (fun u => mkUI (categories u) (state u) (learningIndex u) v
                        (isSpeaking u) (isExpanding u) (isGeneratingImg u) (itemImage u)).
Definition setIsSpeaking (v : bool) : M unit :=
  modify_ui (fun u => mkUI (categories u) (state u) (learningIndex u) (showPersian u)
                        v (isExpanding u) (isGeneratingImg u) (itemImage u)).
Definition setIsExpanding (v : bool) : M unit :=
  modify_ui (fun u => mkUI (categories u) (state u) (learningIndex u) (showPersian u)
                        (isSpeaking u) v (isGeneratingImg u) (itemImage u)).
Definition setIsGeneratingImg (v : bool) : M unit :=
  modify_ui (fun u => mkUI (categories u) (state u) (learningIndex u) (showPersian u)
                        (isSpeaking u) (isExpanding u) v (itemImage u)).
Definition setItemImage (v : option string) : M unit :=
  modify_ui (fun u => mkUI (categories u) (state u) (learningIndex u) (showPersian u)
                        (isSpeaking u) (isExpanding u) (isGeneratingImg u) v).

(** [items[i]] for a JS number [i] that is an integer. *)
Definition item_at (its : list Item.t) (i : Z) : option Item.t :=
  if (i <? 0)%Z then None else its !! Z.to_nat i.

(** Modelled from the spec: [./services/storage] is not part of the sources.
    The asset cache is a key-value store whose [get] answers the stored
    payload or absence and never throws, and whose [set] stores the payload
    under the key. *)
Definition imageStorage_get (key : string) : M (option string) :=
  fun w => (Normal (imageStorage w !! key), w).
(** Modelled from the spec: [imageStorage.set] of [./services/storage], which
    is not part of the sources; the write is taken to succeed. *)
Definition imageStorage_set (key url : string) : M unit :=
  fun w => (Normal tt, mkWorld (ui w) (<[key := url]> (imageStorage w)) (clock w) (log w)).

(** The in-memory image of typed catalog data, and the test that a value has
    the shape the type [Category[]] promises. *)
Definition Item_to_js (i : Item.t) : JSValue :=
  JObj [("id", JStr (Item.id i)); ("name", Item.name i);
        ("persianName", Item.persianName i); ("emoji", Item.emoji i);
        ("color", JStr (Item.color i))].

Definition Category_to_js (c : Category.t) : JSValue :=
  JObj [("id", JStr (Category.id c)); ("name", JStr (Category.name c));
        ("icon", JStr (Category.icon c)); ("color", JStr (Category.color c));
        ("items", JArr (map Item_to_js (Category.items c)))].

Definition catalog_to_js (cats : list Category.t) : JSValue :=
  JArr (map Category_to_js cats).

Definition is_string (v : JSValue) : bool :=
  match v with JStr _ => true | _ => false end.

Definition is_item (v : JSValue) : bool :=
  match v with
  | JObj ms =>
      forallb (fun k => is_string (member k ms))
        ["id"; "name"; "persianName"; "emoji"; "color"]
  | _ => false
  end.

Definition is_category (v : JSValue) : bool :=
  match v with
  | JObj ms =>
      forallb (fun k => is_string (member k ms)) ["id"; "name"; "icon"; "color"]
      && match member "items" ms with
         | JArr its => forallb is_item its
         | _ => false
         end
  | _ => false
  end.

Definition is_catalog (v : JSValue) : bool :=
  match v with
  | JArr cs => forallb is_category cs
  | _ => false
  end.

Section Controller.

Variable host : Host.

(** [./constants] is not part of the sources: the built-in catalog is a
    parameter. *)
Variable INITIAL_CATEGORIES : list Category.t.

Definition TypeError (f : Fault) : Error :=
  mkError "TypeError" (JStr (engine_message host f)).

(** [JSON.parse(text)] as a call. *)
Definition JSON_parse (text : string) : M JSValue :=
  match JSON.parse text with
  | Some v => ret v
  | None => throw (mkError "SyntaxError" (JStr (engine_message host (BadJSON text))))
  end.

(** [Date.now()] *)
Definition Date_now_call : M N :=
  fun w => (Normal (Date_now host (clock w)),
            mkWorld (ui w) (imageStorage w) (S (clock w)) (log w)).

(** [v.k], for the property names the adapters read ([name], [persianName],
    [emoji]): none of them is a property of a prototype. *)
Definition get (v : JSValue) (k : string) : M JSValue :=
  match v with
  | JObj ms => ret (member k ms)
  | JNull | JUndefined => throw (TypeError (PropertyOfNull k))
  | _ => ret JUndefined
  end.

(** [Array.prototype.map] with the callback's index argument. *)
Fixpoint Array_map {A B} (f : A -> nat -> M B) (index : nat) (l : list A) : M (list B) :=
  match l with
  | [] => ret []
  | x :: rest =>
      let* y := f x index in
      let* ys := Array_map f (S index) rest in
      ret (y :: ys)
  end.

(** [data.map(f)] on a parsed value: no JSON value other than an array has a
    callable [map]. *)
Definition data_map {B} (data : JSValue) (f : JSValue -> nat -> M B) : M (list B) :=
  match data with
  | JArr l => Array_map f 0 l
  | JNull | JUndefined => throw (TypeError (PropertyOfNull "map"))
  | _ => throw (TypeError (NotAFunction "data.map"))
  end.

(** *** services/geminiService.ts *)

Definition getClient : M unit :=
  fun w =>
    match API_KEY host (log w) with
    | Some k => if String.eqb k "" then (Throw (mkError "Error" (JStr "API_KEY_MISSING")), w)
                else (Normal tt, w)
    | None => (Throw (mkError "Error" (JStr "API_KEY_MISSING")), w)
    end.

Definition ai_models_generateContent (req : Request) : M Response :=
  call (EvGenerateContent req) (fun h => generateContent host h req).

(** The identifier template [dyn-${categoryName}-${Date.now()}-${index}]. *)
Definition dyn_id (categoryName : string) (now : N) (index : nat) : string :=
  "dyn-" +:+ categoryName +:+ "-" +:+ Str.of_N now +:+ "-" +:+ Str.of_nat index.

(** The callback of [data.map] in [expandCategoryItems]. *)
Definition mint (categoryName : string) (it : JSValue) (index : nat) : M Item.t :=
  let* now := Date_now_call in
  let* name := get it "name" in
  let* persianName := get it "persianName" in
  let* emoji := get it "emoji" in
  ret (Item.mk (dyn_id categoryName now index) name persianName emoji "bg-white").

(** The request of [expandCategoryItems]. *)
Definition expand_request (categoryName : string) (existingItems : list Item.t) : Request :=
  let existingNames := map Item.name existingItems in
  mkRequest "gemini-3-flash-preview" (ExpandPrompt categoryName existingNames).

(** [response.text || "[]"] *)
Definition text_or_empty_array (response : Response) : string :=
  match text response with
  | Some t => if String.eqb t "" then "[]" else t
  | None => "[]"
  end.

Definition expandCategoryItems (categoryName : string) (existingItems : list Item.t)
    : M (list Item.t) :=
  getClient >>
  let* response := ai_models_generateContent (expand_request categoryName existingItems) in
  let text := text_or_empty_array response in
  let* data := JSON_parse text in
  data_map data (mint categoryName).

(** [response.candidates?.[0]?.content?.parts] *)
Definition first_parts (r : Response) : option (list Part) :=
  cs ← candidates r; c ← cs !! 0%nat; content ← c; content.

Definition speech_request (text : string) : Request :=
  mkRequest "gemini-2.5-flash-preview-tts" (SpeechPrompt text).

(** [response.candidates?.[0]?.content?.parts?.[0]?.inlineData?.data] *)
Definition speech_audio (r : Response) : option string :=
  parts ← first_parts r; p ← parts !! 0%nat; d ← inlineData p; d.

Definition generateSpeech (text : string) : M (option string) :=
  getClient >>
  let* response := ai_models_generateContent (speech_request text) in
  ret (speech_audio response).

(** The [for] loop over the parts: the first part with inline data wins. *)
Fixpoint first_image (parts : list Part) : option string :=
  match parts with
  | [] => None
  | p :: rest =>
      match inlineData p with
      | Some d => Some ("data:image/png;base64," +:+ default "undefined" d)
      | None => first_image rest
      end
  end.

Definition image_request (itemName : JSValue) : Request :=
  mkRequest "gemini-2.5-flash-image" (ImagePrompt itemName).

(** What [generateItemImage] returns for an answer. *)
Definition image_url (r : Response) : option string :=
  match first_parts r with
  | None => None
  | Some parts => first_image parts
  end.

Definition generateItemImage (itemName : JSValue) (categoryName : string)
    : M (option string) :=
  getClient >>
  let* response := ai_models_generateContent (image_request itemName) in
  ret (image_url response).

(** *** App.tsx (first revision) *)

(** The initializer of the [categories] state. *)
Definition initial_categories (store : gmap string string) : Completion JSValue :=
  let saved := store !! "kids_joy_v5_data" in
  match saved with
  | Some s =>
      if String.eqb s "" then Normal (catalog_to_js INITIAL_CATEGORIES)
      else
        match JSON.parse s with
        | Some v => Normal v
        | None => Throw (mkError "SyntaxError" (JStr (engine_message host (BadJSON s))))
        end
  | None => Normal (catalog_to_js INITIAL_CATEGORIES)
  end.

(** [categories[0]] on whatever the initializer returned. *)
Definition first_of (v : JSValue) : Completion JSValue :=
  match v with
  | JArr l => Normal (default JUndefined (l !! 0%nat))
  | JStr (String c _) => Normal (JStr (String c ""))
  | JObj ms => Normal (member "0" ms)
  | JNull | JUndefined => Throw (TypeError (PropertyOfNull "0"))
  | _ => Normal JUndefined
  end.

(** The first render of the component up to its second [useState]: the
    catalog and the category selected at start. *)
Definition mount (store : gmap string string) : Completion (JSValue * JSValue) :=
  match initial_categories store with
  | Normal cats =>
      match first_of cats with
      | Normal c => Normal (cats, c)
      | Throw e => Throw e
      end
  | Throw e => Throw e
  end.

Definition alert (msg : string) : M unit := emit (EvAlert msg).
Definition console (level msg : string) : M unit := emit (EvConsole level msg).

(** [window.aistudio.openSelectKey()] *)
Definition aistudio_openSelectKey (a : AIStudio) : M unit :=
  call EvOpenSelectKey (openSelectKey a).

Definition ensureApiKey : M bool :=
  match aistudio host with
  | Some a =>
      let* hasKey := call EvHasSelectedApiKey (hasSelectedApiKey a) in
      if negb hasKey then aistudio_openSelectKey a >> ret true
      else ret true
  | None => ret true
  end.

(** [msg.includes(needle)], where [callee] is the text of [msg.includes]:
    a call that throws on a value that has no such method. *)
Definition msg_includes (callee : string) (msg : JSValue) (needle : string) : M bool :=
  match msg with
  | JStr _ | JArr _ => ret (mentions msg needle)
  | JNull | JUndefined => throw (TypeError (PropertyOfNull "includes"))
  | _ => throw (TypeError (NotAFunction callee))
  end.

(** [a || b] on two tests: [b] is evaluated only when [a] is false. *)
Definition or_else (a b : M bool) : M bool :=
  let* x := a in if x then ret true else b.

Definition handleApiError (error : Error) : M unit :=
  console "error" "Magic Error:" >>
  let msg := message_or_empty error in
  let includes := msg_includes "msg.includes" msg in
  let* auth := or_else (or_else (includes "401") (includes "403")) (includes "key") in
  if auth then
    match aistudio host with
    | Some a => aistudio_openSelectKey a
    | None => alert "Please check your API Key configuration."
    end
  else
    let* safety := or_else (includes "Safety") (includes "blocked") in
    if safety then
      alert "The Magic thinks this might be a bit too sensitive to draw. Let's try another word!"
    else
      alert "The Magic is taking a break (Connection error). Please try again in a moment!".

(** The cache key of an item. *)
Definition image_key (i : Item.t) : string := "img_v5_" +:+ Item.id i.

(** The effect that runs when the displayed item changes. *)
Definition loadImage (snap : UI) : M unit :=
  match view (state snap), selectedCategory (state snap) with
  | learning_detail, Some cat =>
      match item_at (Category.items cat) (learningIndex snap) with
      | Some item =>
          let* cached := imageStorage_get (image_key item) in
          setItemImage cached
      | None => ret tt
      end
  | _, _ => ret tt
  end.

Definition handleSpeech (snap : UI) (text : string) : M unit :=
  if isSpeaking snap then ret tt else
  setIsSpeaking true >>
  try_finally
    (try_catch
       (let* played :=
          try_catch
            (let* audio := generateSpeech text in
             match audio with
             | Some a =>
                 if String.eqb a "" then ret false
                 else call (EvPlayTTSSound a text) (fun h => playTTSSound host h a text) >>
                      ret true
             | None => ret false
             end)
            (fun e => console "warn" "TTS Fallback" >> ret false) in
        if negb played
        then call (EvPlayLocalSpeech text) (fun h => playLocalSpeech host h text)
        else ret tt)
       (fun e => console "error" (message_text e)))
    (setIsSpeaking false).

Definition handleImageGen (snap : UI) : M unit :=
  let item :=
    cat ← selectedCategory (state snap);
    item_at (Category.items cat) (learningIndex snap) in
  match isGeneratingImg snap, item, selectedCategory (state snap) with
  | false, Some item, Some cat =>
      ensureApiKey >>
      setIsGeneratingImg true >>
      try_finally
        (try_catch
           (let* url := generateItemImage (Item.name item) (Category.name cat) in
            match url with
            | Some u =>
                if String.eqb u "" then ret tt
                else imageStorage_set (image_key item) u >> setItemImage (Some u)
            | None => ret tt
            end)
           (fun e => handleApiError e))
        (setIsGeneratingImg false)
  | _, _, _ => ret tt
  end.

(** The catalog after the merge of [newItems] into the categories whose
    identifier is that of [sel]. *)
Definition merge (cats : list Category.t) (sel : Category.t) (newItems : list Item.t)
    : list Category.t :=
  map (fun c =>
         if decide (Category.id c = Category.id sel)
         then Category.with_items c (Category.items c ++ newItems)
         else c)
      cats.

(** [updated.find(cat => cat.id === s.selectedCategory?.id) || s.selectedCategory] *)
Definition refreshed (updated : list Category.t) (s : GameState) : option Category.t :=
  match find (fun cat => bool_decide (Some (Category.id cat) = Category.id <$> selectedCategory s))
             updated with
  | Some c => Some c
  | None => selectedCategory s
  end.

Definition handleExpand (snap : UI) : M unit :=
  match isExpanding snap, selectedCategory (state snap) with
  | false, Some sel =>
      ensureApiKey >>
      setIsExpanding true >>
      try_finally
        (try_catch
           (let* newItems := expandCategoryItems (Category.name sel) (Category.items sel) in
            if (0 <? length newItems)%nat then
              let updated := merge (categories snap) sel newItems in
              setCategories updated >>
              setState (fun s => with_selectedCategory s (refreshed updated s))
            else ret tt)
           (fun e => handleApiError e))
        (setIsExpanding false)
  | _, _ => ret tt
  end.

(** The buttons of the [learning_detail] view: the category picker, PREV,
    NEXT, and the tap on the card. *)
Definition pickCategory (snap : UI) (c : Category.t) : M unit :=
  setState (fun _ => with_selectedCategory (state snap) (Some c)) >>
  setLearningIndex (fun _ => 0%Z).

Definition items_length (snap : UI) : Z :=
  match selectedCategory (state snap) with
  | Some cat => Z.of_nat (length (Category.items cat))
  | None => 0
  end.

Definition prevItem (snap : UI) : M unit :=
  setLearningIndex (fun p => if (0 <? p)%Z then (p - 1)%Z else (items_length snap - 1)%Z) >>
  setShowPersian false.

Definition nextItem (snap : UI) : M unit :=
  setLearningIndex (fun p => if (p <? items_length snap - 1)%Z then (p + 1)%Z else 0%Z) >>
  setShowPersian false.

Definition toggleCard (snap : UI) : M unit :=
  setShowPersian (negb (showPersian snap)).

End Controller.

(** *** App.tsx (second revision): what differs in the category picker *)

Module V9.

Definition pickCategory (snap : UI) (c : Category.t) : M unit :=
  setState (fun _ => with_selectedCategory (state snap) (Some c)) >>
  setLearningIndex (fun _ => 0%Z) >>
  setShowPersian false.

(** The button of a topic in the all-topics overlay, which the
    [learning_detail] view opens; [showAllCats] itself is not part of [UI]. *)
Definition pickFromOverlay (snap : UI) (c : Category.t) : M unit :=
  setState (fun _ => with_selectedCategory (with_view (state snap) learning_detail) (Some c)).

(** [!!process.env.API_KEY] *)
Definition key_set (host : Host) : M bool :=
  fun w =>
    (Normal match API_KEY host (log w) with
            | Some k => negb (String.eqb k "")
            | None => false
            end, w).

Definition ensureApiKey (host : Host) : M bool :=
  match aistudio host with
  | Some a =>
      let* hasKey := call EvHasSelectedApiKey (hasSelectedApiKey a) in
      if negb hasKey then aistudio_openSelectKey a >> ret true
      else key_set host
  | None => key_set host
  end.

Definition handleApiError (host : Host) (error : Error) : M unit :=
  console "error" "Magic Tool Error:" >>
  let msg := message_or_empty error in
  let includes := msg_includes host "msg.includes" msg in
  let* missing := includes "Requested entity was not found" in
  if missing then
    match aistudio host with
    | Some a => aistudio_openSelectKey a
    | None => ret tt
    end
  else
    let* auth := or_else (or_else (includes "API Key") (includes "401")) (includes "403") in
    if auth then
      match aistudio host with
      | Some a => aistudio_openSelectKey a
      | None => ret tt
      end
    else
      alert "Magic is busy! Please check your internet or your Paid API Key.".

Definition image_key (i : Item.t) : string := "img_v9_" +:+ Item.id i.

Definition loadImage (snap : UI) : M unit :=
  match view (state snap), selectedCategory (state snap) with
  | learning_detail, Some cat =>
      match item_at (Category.items cat) (learningIndex snap) with
      | Some item =>
          let* cached := imageStorage_get (image_key item) in
          setItemImage cached
      | None => ret tt
      end
  | _, _ => ret tt
  end.

Definition handleSpeech (host : Host) (snap : UI) (text : string) : M unit :=
  if isSpeaking snap then ret tt else
  setIsSpeaking true >>
  try_finally
    (try_catch
       (let* hasKey := key_set host in
        let* played :=
          if hasKey then
            try_catch
              (let* audio := generateSpeech host text in
               match audio with
               | Some a =>
                   if String.eqb a "" then ret false
                   else call (EvPlayTTSSound a text) (fun h => playTTSSound host h a text) >>
                        ret true
               | None => ret false
               end)
              (fun e => ret false)
          else ret false in
        if negb played
        then call (EvPlayLocalSpeech text) (fun h => playLocalSpeech host h text)
        else ret tt)
       (fun e => ret tt))
    (setIsSpeaking false).

Definition handleImageGen (host : Host) (snap : UI) : M unit :=
  let item :=
    cat ← selectedCategory (state snap);
    item_at (Category.items cat) (learningIndex snap) in
  match isGeneratingImg snap, item, selectedCategory (state snap) with
  | false, Some item, Some cat =>
      ensureApiKey host >>
      setIsGeneratingImg true >>
      try_finally
        (try_catch
           (let* url := generateItemImage host (Item.name item) (Category.name cat) in
            match url with
            | Some u =>
                if String.eqb u "" then ret tt
                else imageStorage_set (image_key item) u >> setItemImage (Some u)
            | None => ret tt
            end)
           (fun e => handleApiError host e))
        (setIsGeneratingImg false)
  | _, _, _ => ret tt
  end.

Definition handleExpand (host : Host) (snap : UI) : M unit :=
  match isExpanding snap, selectedCategory (state snap) with
  | false, Some sel =>
      ensureApiKey host >>
      setIsExpanding true >>
      try_finally
        (try_catch
           (let* newItems :=
              expandCategoryItems host (Category.name sel) (Category.items sel) in
            if (0 <? length newItems)%nat then
              let updated := merge (categories snap) sel newItems in
              setCategories updated >>
              match find (fun cat => bool_decide (Category.id cat = Category.id sel)) updated with
              | Some refreshed => setState (fun s => with_selectedCategory s (Some refreshed))
              | None => ret tt
              end
            else ret tt)
           (fun e => handleApiError host e))
        (setIsExpanding false)
  | _, _ => ret tt
  end.

End V9.

(** *** unnamed/part_001: an earlier revision of the component

    Its handlers are those of the first revision of [App.tsx] without the key
    check; what differs beyond that is the error handler and the cache key. *)

Module V4.

Definition handleApiError (host : Host) (error : Error) : M unit :=
  console "error" "API Call failed:" >>
  let errorMsg := message_or_empty error in
  let includes := msg_includes host "errorMsg.includes" errorMsg in
  let* safety := or_else (includes "Safety") (includes "blocked") in
  if safety then
    alert "Magic failed: This word might be too hard for the magic to draw. Try another one!"
  else
    match aistudio host with
    | Some a =>
        try_catch (aistudio_openSelectKey a)
          (fun e => alert "Please select a valid API key to use Magic features.")
    | None => alert "API Key missing. Please check your environment variables."
    end.

Definition image_key (i : Item.t) : string := "kids_joy_img_" +:+ Item.id i.

Definition handleImageGen (host : Host) (snap : UI) : M unit :=
  let item :=
    cat ← selectedCategory (state snap);
    item_at (Category.items cat) (learningIndex snap) in
  match isGeneratingImg snap, item, selectedCategory (state snap) with
  | false, Some item, Some cat =>
      setIsGeneratingImg true >>
      try_finally
        (try_catch
           (let* url := generateItemImage host (Item.name item) (Category.name cat) in
            match url with
            | Some u =>
                if String.eqb u "" then ret tt
                else imageStorage_set (image_key item) u >> setItemImage (Some u)
            | None => ret tt
            end)
           (fun e => handleApiError host e))
        (setIsGeneratingImg false)
  | _, _, _ => ret tt
  end.

Definition handleExpand (host : Host) (snap : UI) : M unit :=
  match isExpanding snap, selectedCategory (state snap) with
  | false, Some sel =>
      setIsExpanding true >>
      try_finally
        (try_catch
           (let* newItems :=
              expandCategoryItems host (Category.name sel) (Category.items sel) in
            if (0 <? length newItems)%nat then
              let updated := merge (categories snap) sel newItems in
              setCategories updated >>
              setState (fun s => with_selectedCategory s (refreshed updated s))
            else ret tt)
           (fun e => handleApiError host e))
        (setIsExpanding false)
  | _, _ => ret tt
  end.

End V4.

(** *** unnamed/part_000: an earlier revision of the adapters

    The client is built without a test of the key, the expansion and the
    image prompt are worded differently, and an image answer with no parts is
    an error. *)

Module Adapters0.

(** [new GoogleGenAI({ apiKey: process.env.API_KEY || '' })]: no test of
    the key is made here; the constructor, which is the library's, is taken
    to return a client whatever the key, as in [getClient]. *)
Definition getAI : M unit := ret tt.

Definition expand_request (categoryName : string) (existingItems : list Item.t) : Request :=
  let existingNames := map Item.name existingItems in
  mkRequest "gemini-3-flash-preview" (ExpandPrompt0 categoryName existingNames).

Definition image_request (itemName : JSValue) : Request :=
  mkRequest "gemini-2.5-flash-image" (ImagePrompt0 itemName).

Definition expandCategoryItems (host : Host) (categoryName : string)
    (existingItems : list Item.t) : M (list Item.t) :=
  getAI >>
  let* response :=
    ai_models_generateContent host (expand_request categoryName existingItems) in
  let text := text_or_empty_array response in
  let* data := JSON_parse host text in
  data_map host data (mint host categoryName).

Definition generateSpeech (host : Host) (text : string) : M (option string) :=
  getAI >>
  let* response := ai_models_generateContent host (speech_request text) in
  ret (speech_audio response).

Definition generateItemImage (host : Host) (itemName : JSValue) (categoryName : string)
    : M (option string) :=
  getAI >>
  let* response := ai_models_generateContent host (image_request itemName) in
  match first_parts response with
  | None => throw (mkError "Error" (JStr "No image generated"))
  | Some parts => ret (first_image parts)
  end.

End Adapters0.

(** ** The guarded operations and what a run leaves in the log *)

(** The three intents that a busy flag guards. *)
Inductive Op : Type :=
  | Speak (text : string)
  | ExpandCurrentCategory
  | GenerateImageForCurrentItem.

Definition busy (op : Op) (u : UI) : bool :=
  match op with
  | Speak _ => isSpeaking u
  | ExpandCurrentCategory => isExpanding u
  | GenerateImageForCurrentItem => isGeneratingImg u
  end.

(** The handler of an intent, as the render [snap] wires it. *)
Definition issue (host : Host) (op : Op) (snap : UI) : M unit :=
  match op with
  | Speak text => handleSpeech host snap text
  | ExpandCurrentCategory => handleExpand host snap
  | GenerateImageForCurrentItem => handleImageGen host snap
  end.

(** Requests sent to the remote model. *)
Definition requests (l : list Event) : list Request :=
  omap (fun e => match e with EvGenerateContent r => Some r | _ => None end) l.

(** Texts handed to the local speech fallback. *)
Definition local_speech (l : list Event) : list string :=
  omap (fun e => match e with EvPlayLocalSpeech t => Some t | _ => None end) l.

(** What the learner is shown: an alert box or the key-selection dialog. *)
Definition user_facing (e : Event) : bool :=
  match e with EvAlert _ | EvOpenSelectKey => true | _ => false end.

Definition shown (l : list Event) : list Event := List.filter user_facing l.

(** What the remote path of [handleSpeech] meets in world [w], told from the
    answers of the collaborators. *)
Inductive RemoteSpeech : Type :=
  | SynthesisThrows | NoAudio | PlaybackFails | Played.

Definition remote_speech (host : Host) (w : World) (text : string) : RemoteSpeech :=
  match API_KEY host (log w) with
  | None => SynthesisThrows
  | Some k =>
      if String.eqb k "" then SynthesisThrows else
      match generateContent host (log w) (speech_request text) with
      | Throw _ => SynthesisThrows
      | Normal r =>
          match speech_audio r with
          | None => NoAudio
          | Some a =>
              if String.eqb a "" then NoAudio else
              match playTTSSound host (log w ++ [EvGenerateContent (speech_request text)]) a text with
              | Throw _ => PlaybackFails
              | Normal _ => Played
              end
          end
      end
  end.

(** An expansion answer that is not a JSON text, or is a JSON value other
    than an array. *)
Definition malformed (text : string) : bool :=
  match JSON.parse text with
  | Some (JArr _) => false
  | _ => true
  end.

(** The world in which [handleExpand] calls the adapter: the key check has
    completed in [w1] and the busy flag has been set. *)
Definition expanding (w1 : World) : World := snd (setIsExpanding true w1).

(** The world in which [handleImageGen] calls the adapter. *)
Definition generating (w1 : World) : World := snd (setIsGeneratingImg true w1).

(** ** Concrete catalogs, worlds and hosts

    The running example: a catalog of two categories, the learner on the
    first item of Fruits, and collaborators with scripted answers. *)

Module Ex.

Definition apple : Item.t := Item.mk "apple" (JStr "Apple") (JStr "sib") (JStr "A") "bg-red-400".
Definition banana : Item.t := Item.mk "banana" (JStr "Banana") (JStr "moz") (JStr "B") "bg-yellow-400".
Definition cat : Item.t := Item.mk "cat" (JStr "Cat") (JStr "gorbe") (JStr "C") "bg-orange-400".

Definition fruits : Category.t := Category.mk "fruits" "Fruits" "F" "bg-red-400" [apple; banana].
Definition animals : Category.t := Category.mk "animals" "Animals" "A" "bg-green-400" [cat].

Definition catalog : list Category.t := [fruits; animals].

(** The learner looks at the first fruit; nothing is in flight. *)
Definition ui0 : UI :=
  mkUI catalog (mkGameState learning_detail (Some fruits) None 0) 0 false false false false None.

Definition world0 : World := mkWorld ui0 ∅ 0 [].

(** The same on the second fruit, with the localized name revealed. *)
Definition ui_revealed : UI :=
  mkUI catalog (mkGameState learning_detail (Some fruits) None 0) 1 true false false false None.

Definition world_revealed : World := mkWorld ui_revealed ∅ 0 [].

(** Stored catalog records: a text cut short, a number, and [null]. *)
Definition store_cut : gmap string string := {[ "kids_joy_v5_data" := "[{" ]}.
Definition store_number : gmap string string := {[ "kids_joy_v5_data" := "42" ]}.
Definition store_null : gmap string string := {[ "kids_joy_v5_data" := "null" ]}.

Definition messages (f : Fault) : string :=
  match f with
  | BadJSON _ => "Unexpected token in JSON"
  | NotAFunction callee => callee +:+ " is not a function"
  | PropertyOfNull _ => "Cannot read properties of null"
  end.

Definition cherry_date : string :=
  Str.dq "[{'name':'Cherry','persianName':'gilas','emoji':'c'},{'name':'Date','persianName':'khorma','emoji':'d'}]".

(** A remote model that answers every request: [expandText] to an expansion,
    audio to a speech request, one image part to an image request. *)
Definition answers (expandText : option string) (req : Request) : Completion Response :=
  match contents req with
  | ExpandPrompt _ _ => Normal (mkResponse expandText None)
  | SpeechPrompt _ => Normal (mkResponse None (Some [Some (Some [mkPart (Some (Some "UklGRg"))])]))
  | ImagePrompt _ => Normal (mkResponse None (Some [Some (Some [mkPart (Some (Some "iVBORw"))])]))
  | ExpandPrompt0 _ _ => Normal (mkResponse expandText None)
  | ImagePrompt0 _ => Normal (mkResponse None (Some [Some (Some [mkPart (Some (Some "iVBORw"))])]))
  end.

(** A host outside AI Studio, with a key, whose audio player works. *)
Definition host_with (expandText : option string) (now : nat -> N) : Host :=
  mkHost (fun _ => Some "k") (fun _ => answers expandText) now
         (fun _ _ _ => Normal tt) (fun _ _ => Normal tt) None messages.

(** A clock that advances by one millisecond at each reading, and one that
    stands still. *)
Definition ticking (n : nat) : N := (1700000000000 + N.of_nat n)%N.
Definition frozen (n : nat) : N := 1700000000000%N.

Definition host_ok : Host := host_with (Some cherry_date) ticking.
Definition host_frozen : Host := host_with (Some cherry_date) frozen.

(** Hosts whose expansion answer is not a JSON text, is a JSON object, is
    missing, and is the empty array. *)
Definition host_garbled : Host := host_with (Some "Sure! Here are ten words") ticking.
Definition host_object : Host := host_with (Some (Str.dq "{'items':[]}")) ticking.
Definition host_silent : Host := host_with None ticking.
Definition host_empty : Host := host_with (Some "[]") ticking.

(** A host whose remote model rejects every request. *)
Definition host_offline : Host :=
  mkHost (fun _ => Some "k") (fun _ _ => Throw (mkError "Error" (JStr "fetch failed"))) ticking
         (fun _ _ _ => Normal tt) (fun _ _ => Normal tt) None messages.

(** An expansion is in flight. *)
Definition expanding_world : World := expanding world0.

(** The batch that [host_ok] yields for Fruits, minted from clock reading 0. *)
Definition cherry : Item.t :=
  Item.mk "dyn-Fruits-1700000000000-0" (JStr "Cherry") (JStr "gilas") (JStr "c") "bg-white".
Definition date : Item.t :=
  Item.mk "dyn-Fruits-1700000000001-1" (JStr "Date") (JStr "khorma") (JStr "d") "bg-white".

(** The batch that [host_ok] yields for Fruits next, from clock reading 2. *)
Definition cherry_again : Item.t :=
  Item.mk "dyn-Fruits-1700000000002-0" (JStr "Cherry") (JStr "gilas") (JStr "c") "bg-white".
Definition date_again : Item.t :=
  Item.mk "dyn-Fruits-1700000000003-1" (JStr "Date") (JStr "khorma") (JStr "d") "bg-white".

(** The asset cache already holds a picture of the apple. *)
Definition cached_world : World :=
  mkWorld ui0 {[ image_key apple := "data:image/png;base64,AAAA" ]} 0 [].

(** The world after the learner has asked for a picture of the apple. *)
Definition drawn_once : World := snd (handleImageGen host_ok ui0 world0).
Definition drawn_twice : World := snd (handleImageGen host_ok (ui drawn_once) drawn_once).

(** Two expansions of Fruits, one after the other, under each clock. *)
Definition expand_fruits (h : Host) (w : World) : Completion (list Item.t) * World :=
  expandCategoryItems h "Fruits" [apple; banana] w.

(** The worlds that the two calls leave under the ticking clock. *)
Definition expanded_once : World := snd (expand_fruits host_ok world0).
Definition expanded_twice : World := snd (expand_fruits host_ok expanded_once).

(** The world after the learner has expanded Fruits once, and twice, while
    the clock stands still. *)
Definition once_frozen : World := snd (handleExpand host_frozen ui0 world0).
Definition twice_frozen : World := snd (handleExpand host_frozen (ui once_frozen) once_frozen).

End Ex.

(** ** Values read from an answer *)

(** What [it.k] evaluates to when it does not throw. *)
Definition property (it : JSValue) (k : string) : JSValue :=
  match it with
  | JObj ms => member k ms
  | _ => JUndefined
  end.

(** An element on which a property access throws. *)
Definition nullish (it : JSValue) : bool :=
  match it with
  | JNull | JUndefined => true
  | _ => false
  end.

(** The item minted from an element of the answer at a position. *)
Definition minted (c : string) (now : N) (index : nat) (it : JSValue) : Item.t :=
  Item.mk (dyn_id c now index) (property it "name") (property it "persianName")
    (property it "emoji") "bg-white".

(** The alert of the last branch of [handleApiError]. *)
Definition connection_alert : Event :=
  EvAlert "The Magic is taking a break (Connection error). Please try again in a moment!".

(** ** Handlers run from the latest render *)

(** A button pressed once the last update has been rendered: its handler
    closes over the state it finds. *)
Definition from_render (handler : UI -> M unit) : M unit :=
  fun w => handler (ui w) w.

(** The same button pressed [n] times, each press after a render. *)
Fixpoint presses (n : nat) (handler : UI -> M unit) : M unit :=
  match n with
  | O => ret tt
  | S n => from_render handler >> presses n handler
  end.

(** ** JSON.stringify and the persistence effect

    [JSON.stringify] on the values that hold neither [undefined] nor a
    number, and whose objects have distinct names none of which reads as an
    array index: on these the text lists the members in their order.  [None]
    stands for a value outside this fragment. *)

Module Stringify.

Definition hex_digit (n : N) : ascii :=
  ascii_of_N (if (n <? 10)%N then 48 + n else 87 + n).

(** One character of a string, as [JSON.stringify] writes it. *)
Definition quote_char (c : ascii) : string :=
  if Ascii.eqb c JSON.quote then String "\" (String JSON.quote "")
  else if Ascii.eqb c "\" then "\\"
  else if Ascii.eqb c (ascii_of_N 8) then "\b"
  else if Ascii.eqb c (ascii_of_N 12) then "\f"
  else if Ascii.eqb c (ascii_of_N 10) then "\n"
  else if Ascii.eqb c (ascii_of_N 13) then "\r"
  else if Ascii.eqb c (ascii_of_N 9) then "\t"
  else if (N_of_ascii c <? 32)%N then
    "\u00" +:+ String (hex_digit (N_of_ascii c / 16))
                  (String (hex_digit (N_of_ascii c mod 16)) "")
  else String c "".

Fixpoint quote_body (s : string) : string :=
  match s with
  | EmptyString => EmptyString
  | String c r => quote_char c +:+ quote_body r
  end.

Definition quoted (s : string) : string :=
  String JSON.quote (quote_body s +:+ String JSON.quote "").

(** The texts of the elements of a list, separated by commas. *)
Definition join {A} (f : A -> option string) : list A -> option string :=
  fix go (l : list A) : option string :=
    match l with
    | [] => Some ""
    | x :: rest =>
        match rest with
        | [] => f x
        | _ :: _ => t ← f x; ts ← go rest; Some (t +:+ "," +:+ ts)
        end
    end.

(** A name made of digits only: it may be an array index, and an object
    lists its indices first. *)
Definition all_digits (k : string) : bool :=
  negb (String.eqb k "") && forallb JSON.is_digit (Str.chars k).

Definition plain_names (ks : list string) : bool :=
  bool_decide (NoDup ks) && negb (existsb all_digits ks).

Fixpoint stringify (v : JSValue) : option string :=
  match v with
  | JUndefined => None
  | JNum _ => None
  | JNull => Some "null"
  | JBool b => Some (if b then "true" else "false")
  | JStr s => Some (quoted s)
  | JArr l => ts ← join stringify l; Some ("[" +:+ ts +:+ "]")
  | JObj ms =>
      if plain_names (map fst ms) then
        ts ← join (fun m : string * JSValue =>
                     t ← stringify (snd m); Some (quoted (fst m) +:+ ":" +:+ t)) ms;
        Some ("{" +:+ ts +:+ "}")
      else None
  end.

(** A bound on the fuel that parsing the text of a value takes. *)
Definition sum_sizes {A} (f : A -> nat) : list A -> nat :=
  fix go (l : list A) : nat :=
    match l with
    | [] => O
    | x :: rest => S (f x + go rest)
    end.

Fixpoint size (v : JSValue) : nat :=
  match v with
  | JArr l => S (sum_sizes size l)
  | JObj ms => S (sum_sizes (fun m : string * JSValue => size (snd m)) ms)
  | _ => 1
  end.

(** The first character of a text is neither white space nor a closing
    bracket. *)
Definition opens (t : string) : Prop :=
  match t with
  | String c _ =>
      JSON.is_ws c = false ∧ Ascii.eqb c "]" = false ∧ Ascii.eqb c "}" = false
  | EmptyString => False
  end.

End Stringify.

(** The effect that runs after every change of [categories]:
    [localStorage.setItem('kids_joy_v5_data', JSON.stringify(categories))].
    The objects of the catalog list their members in the order of
    [catalog_to_js]; another order would change the order in which the
    members are read back, not their values. *)
Definition persist (cats : list Category.t) (store : gmap string string)
    : option (gmap string string) :=
  text ← Stringify.stringify (catalog_to_js cats);
  Some (<["kids_joy_v5_data" := text]> store).

(** The initializer and the persistence effect of the second revision of
    App.tsx, which keeps its catalog under a key of its own. *)
Module V9Store.

Definition initial_categories (host : Host) (INITIAL_CATEGORIES : list Category.t)
    (store : gmap string string) : Completion JSValue :=
  let saved := store !! "kids_joy_v9_data" in
  match saved with
  | Some s =>
      if String.eqb s "" then Normal (catalog_to_js INITIAL_CATEGORIES)
      else
        match JSON.parse s with
        | Some v => Normal v
        | None => Throw (mkError "SyntaxError" (JStr (engine_message host (BadJSON s))))
        end
  | None => Normal (catalog_to_js INITIAL_CATEGORIES)
  end.

Definition persist (cats : list Category.t) (store : gmap string string)
    : option (gmap string string) :=
  text ← Stringify.stringify (catalog_to_js cats);
  Some (<["kids_joy_v9_data" := text]> store).

End V9Store.

(** ** More hosts and worlds *)

Module Ex2.

(** An answer whose second element is [null]. *)
Definition kiwi_null : string :=
  Str.dq "[{'name':'Kiwi','persianName':'kivi','emoji':'k'},null]".
Definition host_null : Host := Ex.host_with (Some kiwi_null) Ex.ticking.

(** A host with no key in its environment. *)
Definition host_keyless : Host :=
  mkHost (fun _ => None) (fun _ => Ex.answers (Some Ex.cherry_date)) Ex.ticking
         (fun _ _ _ => Normal tt) (fun _ _ => Normal tt) None Ex.messages.



(** A host inside AI Studio where no key has been selected and the
    key-selection dialog rejects. *)
Definition studio_rejecting : AIStudio :=
  mkAIStudio (fun _ => Normal false) (fun _ => Throw (mkError "Error" (JStr "dismissed"))).
Definition host_studio : Host :=
  mkHost (fun _ => Some "k") (fun _ _ => Throw (mkError "Error" (JStr "403 Forbidden")))
         Ex.ticking (fun _ _ _ => Normal tt) (fun _ _ => Normal tt)
         (Some studio_rejecting) Ex.messages.



(** The learner asks for more fruits, moves to Animals and asks for more
    animals before the first expansion has set its flag; the expansion of
    Fruits completes first, the one of Animals after it. *)
Definition on_animals : World := snd (pickCategory Ex.ui0 Ex.animals Ex.world0).
Definition fruits_done : World := snd (handleExpand Ex.host_ok Ex.ui0 on_animals).


(** A category with no items, selected at index 0. *)
Definition empty_cat : Category.t := Category.mk "empty" "Empty" "E" "bg-slate-400" [].
Definition ui_empty : UI :=
  mkUI [empty_cat] (mkGameState learning_detail (Some empty_cat) None 0)
       0 false false false false None.
Definition world_empty : World := mkWorld ui_empty ∅ 0 [].

(** The learner is on the second fruit. *)
Definition ui_banana : UI :=
  mkUI Ex.catalog (mkGameState learning_detail (Some Ex.fruits) None 0)
       1 false false false false None.
Definition world_banana : World := mkWorld ui_banana ∅ 0 [].

(** The selected category is not in the catalog. *)
Definition stray : Category.t := Category.mk "stray" "Stray" "S" "bg-slate-400" [Ex.cat].
Definition ui_stray : UI :=
  mkUI Ex.catalog (mkGameState learning_detail (Some stray) None 0)
       0 false false false false None.
Definition world_stray : World := mkWorld ui_stray ∅ 0 [].

End Ex2.

(** * Properties *)

(** ** JSON.parse never runs out of fuel *)

Section Fuel.

Import JSON.

Local Abbreviation len := String.length.

Lemma skip_ws_length (s : string) : (len (skip_ws s) ≤ len s)%nat.
Proof. induction s as [|c s IH]; simpl; [lia|]. destruct (is_ws c); simpl; lia. Qed.

Lemma starts_length (a : ascii) (s k : string) : starts a s = Some k → len s = S (len k).
Proof.
  destruct s as [|c r]; simpl; [discriminate|].
  destruct (Ascii.eqb c a); [|discriminate]. now intros [= ->].
Qed.

Lemma digits_length (s d r : string) : digits s = (d, r) → (len d + len r)%nat = len s.
Proof.
  revert d r. induction s as [|c s IH]; simpl; intros d r.
  - now intros [= <- <-].
  - destruct (is_digit c).
    + destruct (digits s) as [d' r']. intros [= <- <-]. simpl. now rewrite (IH d' r').
    + now intros [= <- <-].
Qed.

Lemma digits1_length (s d r : string) : digits1 s = Some (d, r) → (len r < len s)%nat.
Proof.
  unfold digits1. destruct (digits s) as [[|c d'] r'] eqn:E; [discriminate|].
  intros [= <- <-]. apply digits_length in E. simpl in E. lia.
Qed.

Lemma strip_length (p s k : string) : Str.strip p s = Some k → (len k + len p)%nat = len s.
Proof.
  revert s. induction p as [|a p IH]; intros [|b s]; simpl; try discriminate.
  - intros [= <-]. simpl. lia.
  - intros [= <-]. simpl. lia.
  - destruct (decide (a = b)); [|discriminate]. intros H. apply IH in H. lia.
Qed.

Lemma int_part_length (s i r : string) : int_part s = Some (i, r) → (len r < len s)%nat.
Proof.
  unfold int_part. destruct (starts "0" s) as [r0|] eqn:E.
  - intros [= <- <-]. apply starts_length in E. lia.
  - apply digits1_length.
Qed.

Lemma frac_part_length (s f r : string) : frac_part s = Some (f, r) → (len r ≤ len s)%nat.
Proof.
  unfold frac_part. destruct (starts "." s) as [r0|] eqn:E.
  - apply starts_length in E.
    destruct (digits1 r0) as [[d r1]|] eqn:D; simpl; [|discriminate].
    intros [= <- <-]. apply digits1_length in D. lia.
  - intros [= <- <-]. lia.
Qed.

Lemma exp_sign_length (s sg r : string) : exp_sign s = (sg, r) → (len r ≤ len s)%nat.
Proof.
  unfold exp_sign.
  destruct (starts "+" s) as [r0|] eqn:E1; [|destruct (starts "-" s) as [r0|] eqn:E2].
  - intros [= <- <-]. apply starts_length in E1. lia.
  - intros [= <- <-]. apply starts_length in E2. lia.
  - intros [= <- <-]. lia.
Qed.

Lemma exp_part_length (s e r : string) : exp_part s = Some (e, r) → (len r ≤ len s)%nat.
Proof.
  unfold exp_part. destruct s as [|c s']; [intros [= <- <-]; lia|].
  destruct (_ || _).
  - destruct (exp_sign s') as [sg r1] eqn:E. apply exp_sign_length in E.
    destruct (digits1 r1) as [[d r2]|] eqn:D; simpl; [|discriminate].
    intros [= <- <-]. apply digits1_length in D. simpl. lia.
  - intros [= <- <-]. lia.
Qed.

Lemma number_length (s l k : string) : number s = Some (l, k) → (len k < len s)%nat.
Proof.
  unfold number.
  assert (∀ sign s1, (len s1 ≤ len s)%nat →
            ('(i, s2) ← int_part s1; '(f, s3) ← frac_part s2; '(e, s4) ← exp_part s3;
             Some (sign +:+ i +:+ f +:+ e, s4)) = Some (l, k) → (len k < len s)%nat) as H.
  { intros sign s1 Hs1.
    destruct (int_part s1) as [[i s2]|] eqn:E1; simpl; [|discriminate].
    destruct (frac_part s2) as [[f s3]|] eqn:E2; simpl; [|discriminate].
    destruct (exp_part s3) as [[e s4]|] eqn:E3; simpl; [|discriminate].
    intros [= <- <-].
    apply int_part_length in E1. apply frac_part_length in E2. apply exp_part_length in E3.
    lia. }
  destruct (starts "-" s) as [r|] eqn:E; apply H; [apply starts_length in E|]; lia.
Qed.

Lemma string_body_length (s : string) :
  ∀ t k, string_body s = Some (t, k) → (len k < len s)%nat.
Proof.
  remember (len s) as n eqn:Hn. revert s Hn.
  induction n as [n IH] using lt_wf_ind. intros s -> t k.
  destruct s as [|c r]; simpl; [discriminate|].
  destruct (Ascii.eqb c quote); [intros [= <- <-]; lia|].
  destruct (Ascii.eqb c "\").
  - destruct r as [|e r']; [discriminate|].
    destruct (Ascii.eqb e "u").
    + destruct r' as [|h1 [|h2 [|h3 [|h4 r'']]]]; try discriminate.
      destruct (hex4 h1 h2 h3 h4); simpl; [|discriminate].
      destruct (string_body r'') as [[t' k']|] eqn:E; simpl; [|discriminate].
      intros [= <- <-]. apply (IH (len r'')) in E; simpl; lia.
    + destruct (escape e); simpl; [|discriminate].
      destruct (string_body r') as [[t' k']|] eqn:E; simpl; [|discriminate].
      intros [= <- <-]. apply (IH (len r')) in E; simpl; lia.
  - destruct (N_of_ascii c <? 32)%N; [discriminate|].
    destruct (string_body r) as [[t' k']|] eqn:E; simpl; [|discriminate].
    intros [= <- <-]. apply (IH (len r)) in E; simpl; lia.
Qed.

(** One step of each of the three functions. *)
Lemma value_S (f : nat) (s : string) :
  value (S f) s
  = match skip_ws s with
    | EmptyString => None
    | String c r as t =>
        if Ascii.eqb c quote then
          '(str, k) ← string_body r; Some (JStr str, k)
        else if Ascii.eqb c "[" then
          match starts "]" (skip_ws r) with
          | Some k => Some (JArr [], k)
          | None => elements f r []
          end
        else if Ascii.eqb c "{" then
          match starts "}" (skip_ws r) with
          | Some k => Some (JObj [], k)
          | None => members f r []
          end
        else if Ascii.eqb c "n" then k ← Str.strip "null" t; Some (JNull, k)
        else if Ascii.eqb c "t" then k ← Str.strip "true" t; Some (JBool true, k)
        else if Ascii.eqb c "f" then k ← Str.strip "false" t; Some (JBool false, k)
        else '(lit, k) ← number t; Some (JNum lit, k)
    end.
Proof. reflexivity. Qed.

Lemma elements_S (f : nat) (s : string) (acc : list JSValue) :
  elements (S f) s acc
  = match value f s with
    | None => None
    | Some (v, r) =>
        match starts "," (skip_ws r) with
        | Some k => elements f k (v :: acc)
        | None =>
            match starts "]" (skip_ws r) with
            | Some k => Some (JArr (rev (v :: acc)), k)
            | None => None
            end
        end
    end.
Proof. reflexivity. Qed.

Lemma members_S (f : nat) (s : string) (acc : list (string * JSValue)) :
  members (S f) s acc
  = match starts quote (skip_ws s) with
    | None => None
    | Some r =>
        match string_body r with
        | None => None
        | Some (key, r1) =>
            match starts ":" (skip_ws r1) with
            | None => None
            | Some r2 =>
                match value f r2 with
                | None => None
                | Some (v, r3) =>
                    match starts "," (skip_ws r3) with
                    | Some k => members f k ((key, v) :: acc)
                    | None =>
                        match starts "}" (skip_ws r3) with
                        | Some k => Some (JObj (rev ((key, v) :: acc)), k)
                        | None => None
                        end
                    end
                end
            end
        end
    end.
Proof. reflexivity. Qed.

(** Facts about lengths that the steps below use: what [skip_ws] returns,
    what follows a tested character, what a parser leaves. *)
Ltac lengths :=
  repeat match goal with
         | H : starts _ _ = Some _ |- _ => apply starts_length in H
         | H : string_body _ = Some _ |- _ => apply string_body_length in H
         | H : number _ = Some _ |- _ => apply number_length in H
         | H : Str.strip _ _ = Some _ |- _ => apply strip_length in H
         | |- context [skip_ws ?s] =>
             lazymatch goal with
             | _ : (len (skip_ws s) ≤ len s)%nat |- _ => fail
             | _ => pose proof (skip_ws_length s)
             end
         | H : context [skip_ws ?s] |- _ =>
             lazymatch goal with
             | _ : (len (skip_ws s) ≤ len s)%nat |- _ => fail
             | _ => pose proof (skip_ws_length s)
             end
         end.

(** A successful parse consumes at least one character. *)
Lemma value_consumes (f : nat) :
  (∀ s v k, value f s = Some (v, k) → (len k < len s)%nat)
  ∧ (∀ s acc v k, elements f s acc = Some (v, k) → (len k < len s)%nat)
  ∧ (∀ s acc v k, members f s acc = Some (v, k) → (len k < len s)%nat).
Proof.
  induction f as [|f (IHv & IHe & IHm)]; [repeat split; intros; discriminate|].
  repeat split.
  - intros s v k. rewrite value_S.
    pose proof (skip_ws_length s) as Hs.
    destruct (skip_ws s) as [|c r] eqn:Es; [discriminate|]. simpl in Hs. cbv zeta.
    destruct (Ascii.eqb c quote).
    { destruct (string_body r) as [[t k']|] eqn:E; simpl; [|discriminate].
      intros [= <- <-]. lengths. lia. }
    destruct (Ascii.eqb c "[").
    { destruct (starts "]" (skip_ws r)) as [k'|] eqn:E.
      - intros [= <- <-]. lengths. lia.
      - intros H. apply IHe in H. lia. }
    destruct (Ascii.eqb c "{").
    { destruct (starts "}" (skip_ws r)) as [k'|] eqn:E.
      - intros [= <- <-]. lengths. lia.
      - intros H. apply IHm in H. lia. }
    destruct (Ascii.eqb c "n").
    { destruct (Str.strip "null" (String c r)) eqn:E; simpl; [|discriminate].
      intros [= <- <-]. lengths. simpl in *. lia. }
    destruct (Ascii.eqb c "t").
    { destruct (Str.strip "true" (String c r)) eqn:E; simpl; [|discriminate].
      intros [= <- <-]. lengths. simpl in *. lia. }
    destruct (Ascii.eqb c "f").
    { destruct (Str.strip "false" (String c r)) eqn:E; simpl; [|discriminate].
      intros [= <- <-]. lengths. simpl in *. lia. }
    destruct (number (String c r)) as [[lit k']|] eqn:E; simpl; [|discriminate].
    intros [= <- <-]. lengths. simpl in *. lia.
  - intros s acc v k. rewrite elements_S.
    destruct (value f s) as [[v' r]|] eqn:E; [|discriminate]. apply IHv in E.
    destruct (starts "," (skip_ws r)) as [k'|] eqn:E1.
    + intros H. apply IHe in H. lengths. lia.
    + destruct (starts "]" (skip_ws r)) as [k'|] eqn:E2; [|discriminate].
      intros [= <- <-]. lengths. lia.
  - intros s acc v k. rewrite members_S.
    destruct (starts quote (skip_ws s)) as [r|] eqn:E0; [|discriminate].
    destruct (string_body r) as [[key r1]|] eqn:E1; [|discriminate].
    destruct (starts ":" (skip_ws r1)) as [r2|] eqn:E2; [|discriminate].
    destruct (value f r2) as [[v' r3]|] eqn:E3; [|discriminate]. apply IHv in E3.
    destruct (starts "," (skip_ws r3)) as [k'|] eqn:E4.
    + intros H. apply IHm in H. lengths. lia.
    + destruct (starts "}" (skip_ws r3)) as [k'|] eqn:E5; [|discriminate].
      intros [= <- <-]. lengths. lia.
Qed.

(** Beyond twice the length of the input, more fuel changes nothing. *)
Lemma fuel_irrelevant (f : nat) :
  ∀ f', (f ≤ f')%nat →
    (∀ s, (2 * len s + 1 ≤ f)%nat → value f' s = value f s)
    ∧ (∀ s acc, (2 * len s + 2 ≤ f)%nat → elements f' s acc = elements f s acc)
    ∧ (∀ s acc, (2 * len s + 2 ≤ f)%nat → members f' s acc = members f s acc).
Proof.
  induction f as [|f IH]; intros f' Hle; [repeat split; intros; lia|].
  destruct f' as [|f']; [lia|].
  destruct (IH f') as (IHv & IHe & IHm); [lia|].
  destruct (value_consumes f) as (Cv & _).
  repeat split.
  - intros s Hs. rewrite !value_S.
    pose proof (skip_ws_length s) as Hw.
    destruct (skip_ws s) as [|c r]; [reflexivity|]. simpl in Hw. cbv zeta.
    rewrite (IHe r), (IHm r) by lia. reflexivity.
  - intros s acc Hs. rewrite !elements_S. rewrite IHv by lia.
    destruct (value f s) as [[v r]|] eqn:E; [|reflexivity]. apply Cv in E.
    destruct (starts "," (skip_ws r)) as [k|] eqn:E1; [|reflexivity].
    lengths. apply IHe. lia.
  - intros s acc Hs. rewrite !members_S.
    destruct (starts quote (skip_ws s)) as [r|] eqn:E0; [|reflexivity].
    destruct (string_body r) as [[key r1]|] eqn:E1; [|reflexivity].
    destruct (starts ":" (skip_ws r1)) as [r2|] eqn:E2; [|reflexivity].
    lengths. rewrite IHv by lia.
    destruct (value f r2) as [[v r3]|] eqn:E3; [|reflexivity]. apply Cv in E3.
    destruct (starts "," (skip_ws r3)) as [k|] eqn:E4; [|reflexivity].
    lengths. apply IHm. lia.
Qed.

(** [JSON.parse] has the fuel it needs: with any larger amount the result is
    the same, be it a value or a syntax error. *)
Lemma fuel_enough (text : string) (f : nat) :
  (2 * len text + 2 ≤ f)%nat → document f text = parse text.
Proof.
  intros Hf. unfold parse, document.
  destruct (fuel_irrelevant (2 * len text + 2) f Hf) as (Hv & _).
  rewrite Hv by lia. reflexivity.
Qed.

End Fuel.

(** ** Identifiers of generated items *)

Section Identifiers.

Local Abbreviation dash := ("-"%char).

Lemma digits_no_dash (d : uint) : dash ∉ Str.chars (NilEmpty.string_of_uint d).
Proof.
  induction d; simpl; [apply not_elem_of_nil | ..];
    (apply not_elem_of_cons; split; [discriminate | assumption]).
Qed.

Lemma of_N_no_dash (n : N) : dash ∉ Str.chars (Str.of_N n).
Proof.
  unfold Str.of_N, NilZero.string_of_uint.
  destruct (N.to_uint n) eqn:E; try (rewrite <- E; apply digits_no_dash).
  simpl. apply not_elem_of_cons; split; [discriminate | apply not_elem_of_nil].
Qed.

Lemma to_uint_not_Nil (n : N) : N.to_uint n ≠ Nil.
Proof.
  destruct n as [|p]; simpl; [discriminate | apply DecimalPos.Unsigned.to_uint_nonnil].
Qed.

Lemma of_N_inj (n m : N) : Str.of_N n = Str.of_N m → n = m.
Proof.
  unfold Str.of_N. intros E.
  assert (Some (N.to_uint n) = Some (N.to_uint m)) as [= E'].
  { rewrite <- (NilZero.usu _ (to_uint_not_Nil n)), <- (NilZero.usu _ (to_uint_not_Nil m)).
    now rewrite E. }
  rewrite <- (DecimalN.Unsigned.of_to n), <- (DecimalN.Unsigned.of_to m).
  now rewrite E'.
Qed.

Lemma of_nat_inj (i j : nat) : Str.of_nat i = Str.of_nat j → i = j.
Proof. unfold Str.of_nat. intros E. apply of_N_inj in E. lia. Qed.

(** A text ends in exactly one way with a dash followed by dash-free
    characters. *)
Lemma last_dash_inj (a b d1 d2 : string) :
  dash ∉ Str.chars d1 → dash ∉ Str.chars d2 →
  a +:+ String dash d1 = b +:+ String dash d2 → a = b ∧ d1 = d2.
Proof.
  intros H1 H2. revert b.
  induction a as [|x a IH]; intros [|y b]; simpl; intros E.
  - now inversion E.
  - exfalso. inversion E as [[Ex Ed]]. apply H1. rewrite Ed.
    clear. induction b; simpl; [left | right; assumption].
  - exfalso. inversion E as [[Ex Ed]]. apply H2. rewrite <- Ed.
    clear. induction a; simpl; [left | right; assumption].
  - inversion E as [[Ex Ed]]. destruct (IH _ Ed) as [-> ->]. now split.
Qed.

(** Two minted identifiers of one category are the same only for the same
    clock reading and the same position. *)
Lemma dyn_id_inj (c : string) (t1 t2 : N) (i j : nat) :
  dyn_id c t1 i = dyn_id c t2 j → t1 = t2 ∧ i = j.
Proof.
  unfold dyn_id. intros E.
  apply (inj (String.app "dyn-")) in E. apply (inj (String.app c)) in E.
  simpl in E. injection E as E.
  apply last_dash_inj in E; try apply of_N_no_dash.
  destruct E as [Et Ei]. split; [now apply of_N_inj | now apply of_nat_inj].
Qed.

Variable host : Host.

Lemma mint_run (c : string) (it : JSValue) (index : nat) (w : World) :
  ∃ r, mint host c it index w
       = (r, mkWorld (ui w) (imageStorage w) (S (clock w)) (log w))
     ∧ ∀ x, r = Normal x → Item.id x = dyn_id c (Date_now host (clock w)) index.
Proof.
  unfold mint, bind, Date_now_call, get, throw, ret.
  destruct it; simpl; eexists; (split; [reflexivity |]); intros x [= <-]; reflexivity.
Qed.

(** The identifiers of the batch that one [data.map] builds, by position. *)
Lemma Array_map_mint (c : string) (l : list JSValue) :
  ∀ (index : nat) (w w' : World) (ys : list Item.t),
    Array_map (mint host c) index l w = (Normal ys, w') →
    clock w' = clock w + length l ∧ length ys = length l ∧
    ∀ k y, ys !! k = Some y →
           Item.id y = dyn_id c (Date_now host (clock w + k)) (index + k).
Proof.
  induction l as [|it l IH]; intros index w w' ys; simpl.
  - unfold ret. intros [= <- <-]. repeat split; [lia | intros k y H; discriminate H].
  - unfold bind at 1. destruct (mint_run c it index w) as (r & -> & Hid).
    destruct r as [x|e]; [|discriminate].
    unfold bind at 1.
    destruct (Array_map _ _ _ _) as [[xs|e] w1] eqn:E; [|discriminate].
    unfold ret. intros [= <- <-].
    destruct (IH _ _ _ _ E) as (Hc & Hl & Hk). simpl in Hc.
    repeat split; [lia | simpl; lia |].
    intros [|k] y; simpl.
    + intros [= <-]. rewrite !Nat.add_0_r. now apply Hid.
    + intros H. rewrite (Hk _ _ H). simpl. f_equal; [f_equal; lia | lia].
Qed.

(** A run of [expandCategoryItems] that returns items has minted them with
    the clock readings that follow those made before the call. *)
Lemma expand_ids (c : string) (existing : list Item.t) (w w' : World) (items : list Item.t) :
  expandCategoryItems host c existing w = (Normal items, w') →
  ∀ k y, items !! k = Some y → Item.id y = dyn_id c (Date_now host (clock w + k)) k.
Proof.
  unfold expandCategoryItems, bind, getClient, ai_models_generateContent, call, JSON_parse.
  destruct (API_KEY host (log w)) as [key|]; [|discriminate].
  destruct (String.eqb key ""); [discriminate|].
  destruct (generateContent host (log w) _) as [resp|e]; [|discriminate].
  match goal with |- context [JSON.parse ?t] => destruct (JSON.parse t) as [data|] end;
    [|discriminate].
  unfold ret, data_map. destruct data; try discriminate.
  intros E. apply Array_map_mint in E. simpl in E. apply E.
Qed.

Lemma batch_NoDup (c : string) (clock0 : nat) (items : list Item.t) :
  (∀ k y, items !! k = Some y → Item.id y = dyn_id c (Date_now host (clock0 + k)) k) →
  NoDup (map Item.id items).
Proof.
  intros H. apply NoDup_alt. intros i j x Hi Hj.
  rewrite list_lookup_fmap in Hi, Hj.
  destruct (items !! i) as [a|] eqn:Ea; [|discriminate]. injection Hi as <-.
  destruct (items !! j) as [b|] eqn:Eb; [|discriminate]. injection Hj as Hj.
  rewrite (H _ _ Ea), (H _ _ Eb) in Hj. now apply dyn_id_inj in Hj.
Qed.

End Identifiers.

(** C3 (as amended) Within one batch the minted identifiers are pairwise
    distinct, whatever the clock reads.  Across two batches of the same
    category they are pairwise distinct as soon as the clock readings made at
    equal positions of the two batches differ. *)
Theorem expand_ids_distinct (host : Host) (c : string) (e1 e2 : list Item.t)
    (w1 w1' w2 w2' : World) (items1 items2 : list Item.t) :
  expandCategoryItems host c e1 w1 = (Normal items1, w1') →
  expandCategoryItems host c e2 w2 = (Normal items2, w2') →
  NoDup (map Item.id items1) ∧ NoDup (map Item.id items2) ∧
  ((∀ k, k < length items1 → k < length items2 →
         Date_now host (clock w1 + k) ≠ Date_now host (clock w2 + k)) →
   NoDup (map Item.id items1 ++ map Item.id items2)).
Proof.
  intros R1 R2.
  pose proof (expand_ids host _ _ _ _ _ R1) as H1.
  pose proof (expand_ids host _ _ _ _ _ R2) as H2.
  pose proof (batch_NoDup host _ _ _ H1) as N1.
  pose proof (batch_NoDup host _ _ _ H2) as N2.
  repeat split; try assumption.
  intros Hclock. apply NoDup_app. repeat split; try assumption.
  intros x Hx1 Hx2.
  apply list_elem_of_lookup in Hx1 as [i Hi]. apply list_elem_of_lookup in Hx2 as [j Hj].
  rewrite list_lookup_fmap in Hi, Hj.
  destruct (items1 !! i) as [a|] eqn:Ea; [|discriminate]. injection Hi as <-.
  destruct (items2 !! j) as [b|] eqn:Eb; [|discriminate]. injection Hj as Hj.
  rewrite (H1 _ _ Ea), (H2 _ _ Eb) in Hj. apply dyn_id_inj in Hj as [Ht <-].
  apply lookup_lt_Some in Ea, Eb. now apply (Hclock j).
Qed.

Lemma expand_ids_distinct_witness :
  Ex.expand_fruits Ex.host_ok Ex.world0 = (Normal [Ex.cherry; Ex.date], Ex.expanded_once)
  ∧ Ex.expand_fruits Ex.host_ok Ex.expanded_once
    = (Normal [Ex.cherry_again; Ex.date_again], Ex.expanded_twice)
  ∧ NoDup (map Item.id [Ex.cherry; Ex.date] ++ map Item.id [Ex.cherry_again; Ex.date_again]).
Proof.
  assert (Ex.expand_fruits Ex.host_ok Ex.world0
          = (Normal [Ex.cherry; Ex.date], Ex.expanded_once)) as R1 by reflexivity.
  assert (Ex.expand_fruits Ex.host_ok Ex.expanded_once
          = (Normal [Ex.cherry_again; Ex.date_again], Ex.expanded_twice)) as R2 by reflexivity.
  split; [exact R1|]. split; [exact R2|].
  apply (expand_ids_distinct Ex.host_ok "Fruits" [Ex.apple; Ex.banana] [Ex.apple; Ex.banana]
           Ex.world0 Ex.expanded_once Ex.expanded_once Ex.expanded_twice
           [Ex.cherry; Ex.date] [Ex.cherry_again; Ex.date_again] R1 R2).
  intros k _ _. unfold Date_now, Ex.host_ok, Ex.host_with, Ex.ticking.
  change (clock Ex.world0) with 0%nat. change (clock Ex.expanded_once) with 2%nat. lia.
Defined.

(** C3 (as stated) fails: two expansions of one category whose minting steps
    read the same millisecond mint the same identifiers, position by position;
    through the controller, the category then holds each of them twice. *)
Lemma expand_ids_collide :
  (∃ items1 w1 items2 w2,
     Ex.expand_fruits Ex.host_frozen Ex.world0 = (Normal items1, w1) ∧
     Ex.expand_fruits Ex.host_frozen w1 = (Normal items2, w2) ∧
     map Item.id items1 = ["dyn-Fruits-1700000000000-0"; "dyn-Fruits-1700000000000-1"] ∧
     map Item.id items2 = map Item.id items1 ∧
     ¬ NoDup (map Item.id items1 ++ map Item.id items2)) ∧
  (map (fun c => map Item.id (Category.items c)) (categories (ui Ex.twice_frozen))
   = [["apple"; "banana";
       "dyn-Fruits-1700000000000-0"; "dyn-Fruits-1700000000000-1";
       "dyn-Fruits-1700000000000-0"; "dyn-Fruits-1700000000000-1"];
      ["cat"]]).
Proof.
  split; [|vm_compute; reflexivity].
  do 4 eexists. split; [vm_compute; reflexivity|]. split; [vm_compute; reflexivity|].
  split; [reflexivity|]. split; [reflexivity|].
  simpl. intros H. apply NoDup_cons in H as [H _]. apply H. set_solver.
Qed.

(** ** Runs of the helpers *)

Section Helpers.

Variable host : Host.

Lemma logged_nil (w : World) : logged w [] = w.
Proof. destruct w. unfold logged. simpl. now rewrite app_nil_r. Qed.

Lemma logged_logged (w : World) (a b : list Event) : logged (logged w a) b = logged w (a ++ b).
Proof. unfold logged. simpl. now rewrite app_assoc. Qed.

Lemma call_run {A} (ev : Event) (answer : list Event -> Completion A) (w : World) :
  call ev answer w = (answer (log w), logged w [ev]).
Proof. reflexivity. Qed.

(** The key check touches nothing but the log, and sends no request. *)
Lemma ensureApiKey_run (w : World) :
  ∃ r evs, ensureApiKey host w = (r, logged w evs)
           ∧ requests evs = [] ∧ local_speech evs = [].
Proof.
  unfold ensureApiKey. destruct (aistudio host) as [a|].
  - unfold bind. rewrite call_run.
    destruct (hasSelectedApiKey a (log w)) as [[|]|e]; cbn [negb].
    + unfold ret. now exists (Normal true), [EvHasSelectedApiKey].
    + unfold aistudio_openSelectKey. rewrite call_run, logged_logged.
      destruct (openSelectKey a _); unfold ret;
        eexists _, [EvHasSelectedApiKey; EvOpenSelectKey]; now split.
    + now exists (Throw e), [EvHasSelectedApiKey].
  - exists (Normal true), []. now rewrite logged_nil.
Qed.

(** What is left of a message after [|| ""] is never [null] or [undefined]:
    [includes] answers on a string and on an array, and is not a function
    on anything else. *)
Lemma msg_includes_run (callee : string) (e : Error) (needle : string) (w : World) :
  msg_includes host callee (message_or_empty e) needle w
  = (if searchable (message_or_empty e)
     then Normal (mentions (message_or_empty e) needle)
     else Throw (TypeError host (NotAFunction callee)), w).
Proof.
  unfold message_or_empty.
  destruct (message e) as [| |[|]|lit|[|c s]|l|ms]; try reflexivity.
  simpl. now destruct (zero_mantissa lit).
Qed.

Lemma or_else_run (callee : string) (e : Error) (a : M bool) (needle : string)
    (x : bool) (w : World) :
  a w = (if searchable (message_or_empty e)
         then Normal x else Throw (TypeError host (NotAFunction callee)), w) →
  or_else a (msg_includes host callee (message_or_empty e) needle) w
  = (if searchable (message_or_empty e)
     then Normal (x || mentions (message_or_empty e) needle)
     else Throw (TypeError host (NotAFunction callee)), w).
Proof.
  intros Ha. unfold or_else, bind. rewrite Ha.
  destruct (searchable (message_or_empty e)) eqn:Hs; [|reflexivity].
  destruct x; [reflexivity|]. rewrite msg_includes_run, Hs. reflexivity.
Qed.

(** The error handler on a message that has no [includes]: it has written
    to the console and throws, and the learner is shown nothing. *)
Lemma handleApiError_stuck (e : Error) (w : World) :
  searchable (message_or_empty e) = false →
  handleApiError host e w
  = (Throw (TypeError host (NotAFunction "msg.includes")),
     logged w [EvConsole "error" "Magic Error:"]).
Proof.
  intros Hs. unfold handleApiError, console, emit. unfold bind at 1. rewrite call_run.
  unfold bind at 1.
  rewrite (or_else_run "msg.includes" e _ "key" (mentions (message_or_empty e) "401"
                                                || mentions (message_or_empty e) "403"));
    [now rewrite Hs|].
  apply or_else_run, msg_includes_run.
Qed.

(** The error handler on a message it can search. *)
Lemma handleApiError_searched (e : Error) (w : World) :
  searchable (message_or_empty e) = true →
  let msg := message_or_empty e in
  handleApiError host e w
  = (if mentions msg "401" || mentions msg "403" || mentions msg "key" then
       match aistudio host with
       | Some a => aistudio_openSelectKey a
       | None => alert "Please check your API Key configuration."
       end
     else if mentions msg "Safety" || mentions msg "blocked" then
       alert "The Magic thinks this might be a bit too sensitive to draw. Let's try another word!"
     else
       alert "The Magic is taking a break (Connection error). Please try again in a moment!")
      (logged w [EvConsole "error" "Magic Error:"]).
Proof.
  intros Hs msg. unfold handleApiError, console, emit. unfold bind at 1. rewrite call_run.
  unfold bind at 1.
  rewrite (or_else_run "msg.includes" e _ "key" (mentions (message_or_empty e) "401"
                                                || mentions (message_or_empty e) "403"));
    [|apply or_else_run, msg_includes_run].
  rewrite Hs. fold msg. destruct (_ || _ || _); [reflexivity|].
  unfold bind at 1.
  rewrite (or_else_run "msg.includes" e _ "blocked" (mentions (message_or_empty e) "Safety"));
    [|apply msg_includes_run].
  rewrite Hs. reflexivity.
Qed.

(** On such a message the error handler writes to the console and then shows
    the learner an alert box or the key-selection dialog. *)
Lemma handleApiError_run (e : Error) (w : World) :
  searchable (message_or_empty e) = true →
  ∃ r n, handleApiError host e w = (r, logged w [EvConsole "error" "Magic Error:"; n])
         ∧ user_facing n = true.
Proof.
  intros Hs. rewrite (handleApiError_searched e w Hs). unfold alert, emit.
  destruct (_ || _ || _).
  - destruct (aistudio host) as [a|].
    + unfold aistudio_openSelectKey. rewrite call_run, logged_logged.
      now eexists _, EvOpenSelectKey.
    + rewrite call_run, logged_logged. now eexists _, (EvAlert _).
  - destruct (_ || _); rewrite call_run, logged_logged; now eexists _, (EvAlert _).
Qed.

(** Whatever is thrown, the error handler touches nothing but the log, and
    sends no request. *)
Lemma handleApiError_log (e : Error) (w : World) :
  ∃ r evs, handleApiError host e w = (r, logged w evs)
           ∧ requests evs = [] ∧ local_speech evs = [].
Proof.
  destruct (searchable (message_or_empty e)) eqn:Hs.
  - destruct (handleApiError_run e w Hs) as (r & n & -> & Hn).
    eexists _, _. split; [reflexivity|]. now destruct n.
  - rewrite (handleApiError_stuck e w Hs). now eexists _, _.
Qed.

(** An error whose message is a string can be searched; the faults of the
    engine are such errors. *)
Lemma string_searchable (name text : string) :
  searchable (message_or_empty (mkError name (JStr text))) = true.
Proof. now destruct text. Qed.

Lemma TypeError_searchable (f : Fault) :
  searchable (message_or_empty (TypeError host f)) = true.
Proof. apply string_searchable. Qed.

(** Running a statement depends only on the run of its first part. *)
Lemma bind_run {A B} (m1 m2 : M A) (k : A -> M B) (w1 w2 : World) :
  m1 w1 = m2 w2 → bind m1 k w1 = bind m2 k w2.
Proof. unfold bind. now intros ->. Qed.

Lemma try_catch_run {A} (m1 m2 : M A) (h : Error -> M A) (w1 w2 : World) :
  m1 w1 = m2 w2 → try_catch m1 h w1 = try_catch m2 h w2.
Proof. unfold try_catch. now intros ->. Qed.

Lemma try_finally_run {A} (m1 m2 : M A) (c : M unit) (w1 w2 : World) :
  m1 w1 = m2 w2 → try_finally m1 c w1 = try_finally m2 c w2.
Proof. unfold try_finally. now intros ->. Qed.

(** With a key, the adapters send their request and go on with the answer. *)
Lemma getClient_ok (k : string) (w : World) :
  API_KEY host (log w) = Some k → k ≠ "" → getClient host w = (Normal tt, w).
Proof.
  intros Hk Hne. unfold getClient. rewrite Hk.
  apply String.eqb_neq in Hne. now rewrite Hne.
Qed.

Lemma expandCategoryItems_answer (c : string) (existing : list Item.t) (w : World)
    (k : string) (r : Response) :
  API_KEY host (log w) = Some k → k ≠ "" →
  generateContent host (log w) (expand_request c existing) = Normal r →
  expandCategoryItems host c existing w
  = (let* data := JSON_parse host (text_or_empty_array r) in
     data_map host data (mint host c))
      (logged w [EvGenerateContent (expand_request c existing)]).
Proof.
  intros Hk Hne Hans. unfold expandCategoryItems.
  unfold bind at 1. rewrite (getClient_ok k w Hk Hne).
  unfold bind at 1. unfold ai_models_generateContent. rewrite call_run, Hans.
  reflexivity.
Qed.

(** A [finally] block that only sets React state decides the state the
    statement ends in. *)
Lemma try_finally_modify {A} (body : M A) (f : UI -> UI) (w : World) :
  ui (snd (try_finally body (modify_ui f) w)) = f (ui (snd (body w))).
Proof. unfold try_finally. destruct (body w) as [r w']. reflexivity. Qed.

End Helpers.

(** ** Busy flags *)

(** C6 An intent issued while its busy flag is set does nothing: the handler
    returns at once and leaves the world (the catalog, the asset cache, every
    flag, and the log of calls on the collaborators) as it was. *)
Theorem single_flight (host : Host) (op : Op) (w : World) :
  busy op (ui w) = true →
  issue host op (ui w) w = (Normal tt, w).
Proof.
  destruct op as [text| |]; simpl; intros Hbusy.
  - unfold handleSpeech. now rewrite Hbusy.
  - unfold handleExpand. now rewrite Hbusy.
  - unfold handleImageGen. now rewrite Hbusy.
Qed.

Lemma single_flight_witness :
  issue Ex.host_ok ExpandCurrentCategory (ui (Ex.expanding_world)) Ex.expanding_world
  = (Normal tt, Ex.expanding_world).
Proof. apply (single_flight Ex.host_ok ExpandCurrentCategory Ex.expanding_world). reflexivity. Defined.

(** C7 An intent issued while its busy flag is free ends with the flag free
    again, whatever the collaborators answer or throw on the way: a key check
    that rejects, a remote call that fails, a local fallback that fails, an
    error handler that itself throws. *)
Theorem busy_released (host : Host) (op : Op) (w : World) :
  busy op (ui w) = false →
  busy op (ui (snd (issue host op (ui w) w))) = false.
Proof.
  destruct op as [text| |]; simpl; intros Hfree.
  - unfold handleSpeech. rewrite Hfree. unfold bind at 1. simpl.
    unfold setIsSpeaking. now rewrite try_finally_modify.
  - unfold handleExpand. rewrite Hfree.
    destruct (selectedCategory (state (ui w))) as [sel|]; [|assumption].
    unfold bind at 1.
    destruct (ensureApiKey_run host w) as (r & evs & -> & _).
    destruct r as [b|e]; [|assumption].
    unfold bind at 1. simpl.
    unfold setIsExpanding. now rewrite try_finally_modify.
  - unfold handleImageGen. rewrite Hfree.
    destruct (selectedCategory (state (ui w))) as [cat|]; [|assumption]. simpl.
    destruct (item_at _ _) as [item|]; [|assumption].
    unfold bind at 1.
    destruct (ensureApiKey_run host w) as (r & evs & -> & _).
    destruct r as [b|e]; [|assumption].
    unfold bind at 1. simpl.
    unfold setIsGeneratingImg. now rewrite try_finally_modify.
Qed.

Lemma busy_released_witness :
  busy (Speak "Apple") (ui (snd (issue Ex.host_offline (Speak "Apple") (ui Ex.world0) Ex.world0)))
  = false.
Proof. apply (busy_released Ex.host_offline (Speak "Apple") Ex.world0). reflexivity. Defined.

(** ** Speech *)

(** C5 A [speak] that is not dropped makes at most one request to the remote
    model.  When the remote path fails (synthesis throws, the answer carries
    no audio, or playback throws) the local fallback is called exactly once,
    with the same text; when it plays, the local fallback is not called. *)
Theorem speech_fallback (host : Host) (text : string) (w : World) :
  isSpeaking (ui w) = false →
  ∃ evs, log (snd (handleSpeech host (ui w) text w)) = (log w ++ evs)%list
         ∧ (length (requests evs) ≤ 1)%nat
         ∧ local_speech evs = match remote_speech host w text with
                              | Played => []
                              | SynthesisThrows | NoAudio | PlaybackFails => [text]
                              end.
Proof.
  intros Hfree.
  unfold handleSpeech, remote_speech, generateSpeech, getClient, ai_models_generateContent.
  rewrite Hfree.
  unfold try_finally, try_catch, bind, call, console, emit, call, ret, setIsSpeaking, modify_ui.
  repeat (cbn [negb ui log imageStorage clock fst snd];
          match goal with
          | |- context [API_KEY host ?l] => destruct (API_KEY host l)
          | |- context [String.eqb ?a ""] => destruct (String.eqb a "")
          | |- context [generateContent host ?l ?r] => destruct (generateContent host l r)
          | |- context [speech_audio ?r] => destruct (speech_audio r)
          | |- context [playTTSSound host ?l ?a ?t] => destruct (playTTSSound host l a t)
          | |- context [playLocalSpeech host ?l ?t] => destruct (playLocalSpeech host l t)
          end).
  all: rewrite <- ?app_assoc; eexists; (split; [reflexivity|]); simpl; split; (lia || reflexivity).
Qed.

Lemma speech_fallback_witness :
  ∃ evs, log (snd (handleSpeech Ex.host_offline (ui Ex.world0) "Apple" Ex.world0))
         = (log Ex.world0 ++ evs)%list
         ∧ (length (requests evs) ≤ 1)%nat
         ∧ local_speech evs = match remote_speech Ex.host_offline Ex.world0 "Apple" with
                              | Played => []
                              | SynthesisThrows | NoAudio | PlaybackFails => ["Apple"]
                              end.
Proof. apply (speech_fallback Ex.host_offline "Apple" Ex.world0). reflexivity. Defined.

(** The two paths on the running example: the remote model is unreachable,
    and the remote model answers with audio. *)
Example speak_offline :
  log (snd (handleSpeech Ex.host_offline Ex.ui0 "Apple" Ex.world0))
  = [EvGenerateContent (speech_request "Apple"); EvConsole "warn" "TTS Fallback";
     EvPlayLocalSpeech "Apple"].
Proof. reflexivity. Qed.

Example speak_remote :
  log (snd (handleSpeech Ex.host_ok Ex.ui0 "Apple" Ex.world0))
  = [EvGenerateContent (speech_request "Apple"); EvPlayTTSSound "UklGRg" "Apple"].
Proof. reflexivity. Qed.

(** ** Expansion: the merge *)










(** The scenario of the specification: Fruits holds Apple and Banana, the
    remote model returns Cherry and Date. *)
Example fruits_expanded :
  map (fun c => (Category.name c, map Item.name (Category.items c)))
      (categories (ui (snd (handleExpand Ex.host_ok Ex.ui0 Ex.world0))))
  = [("Fruits", [JStr "Apple"; JStr "Banana"; JStr "Cherry"; JStr "Date"]);
     ("Animals", [JStr "Cat"])].
Proof. reflexivity. Qed.

(** ** Expansion: answers that are not a batch *)

Lemma malformed_throws (host : Host) (c : string) (t : string) (w : World) :
  malformed t = true →
  ∃ e, (let* data := JSON_parse host t in data_map host data (mint host c)) w = (Throw e, w)
       ∧ searchable (message_or_empty e) = true.
Proof.
  unfold malformed, JSON_parse, bind.
  destruct (JSON.parse t) as [[| | | | | |]|]; try discriminate; intros _;
    unfold ret, throw, data_map; simpl; eexists; (split; [reflexivity|]);
    apply string_searchable.
Qed.

(** C4 (as amended) When the answer of the remote model to an expansion is
    not a JSON text, or is a JSON value other than an array, the catalog and
    the asset cache are left as they were and the busy flag is released, but
    the error goes to the error handler, which shows the learner an alert box
    or the key-selection dialog.  When the answer has no text, or is the empty
    array, the expansion is treated as zero new items: nothing changes, the
    handler completes normally and the learner is shown nothing. *)
Theorem expansion_without_batch (host : Host) (w w1 : World) (sel : Category.t)
    (b : bool) (k : string) (r : Response) :
  isExpanding (ui w) = false →
  selectedCategory (state (ui w)) = Some sel →
  ensureApiKey host w = (Normal b, w1) →
  API_KEY host (log w1) = Some k → k ≠ "" →
  generateContent host (log w1) (expand_request (Category.name sel) (Category.items sel))
    = Normal r →
  let run := handleExpand host (ui w) w in
  let req := EvGenerateContent (expand_request (Category.name sel) (Category.items sel)) in
  (malformed (text_or_empty_array r) = true →
     categories (ui (snd run)) = categories (ui w)
     ∧ imageStorage (snd run) = imageStorage w1
     ∧ isExpanding (ui (snd run)) = false
     ∧ ∃ n, user_facing n = true
            ∧ log (snd run) = (log w1 ++ [req; EvConsole "error" "Magic Error:"; n])%list)
  ∧ (JSON.parse (text_or_empty_array r) = Some (JArr []) →
     fst run = Normal tt
     ∧ categories (ui (snd run)) = categories (ui w)
     ∧ imageStorage (snd run) = imageStorage w1
     ∧ isExpanding (ui (snd run)) = false
     ∧ log (snd run) = (log w1 ++ [req])%list).
Proof.
  intros Hfree Hsel Hkey Hk Hne Hans run req.
  destruct (ensureApiKey_run host w) as (r0 & evs0 & Hrun0 & _).
  rewrite Hkey in Hrun0. injection Hrun0 as <- ->.
  set (w2 := logged (expanding (logged w evs0)) [req]).
  assert (run = try_finally
                  (try_catch
                     (let* newItems :=
                        (let* data := JSON_parse host (text_or_empty_array r) in
                         data_map host data (mint host (Category.name sel))) in
                      if (0 <? length newItems)%nat
                      then setCategories (merge (categories (ui w)) sel newItems) >>
                           setState (fun s => with_selectedCategory s
                                       (refreshed (merge (categories (ui w)) sel newItems) s))
                      else ret tt)
                     (fun e => handleApiError host e))
                  (setIsExpanding false) w2) as E.
  { subst run. unfold handleExpand. rewrite Hfree, Hsel.
    unfold bind at 1. rewrite Hkey.
    unfold bind at 1. change (setIsExpanding true (logged w evs0))
      with (Normal tt, expanding (logged w evs0)).
    apply try_finally_run, try_catch_run, bind_run.
    now apply expandCategoryItems_answer with k. }
  clearbody run. split.
  - intros Hmal.
    destruct (malformed_throws host (Category.name sel) _ w2 Hmal) as (e & He & Hs).
    destruct (handleApiError_run host e w2 Hs) as (r1 & n & Herr & Hn).
    assert (run = (r1, snd (setIsExpanding false
                              (logged w2 [EvConsole "error" "Magic Error:"; n])))) as ->.
    { rewrite E. unfold try_finally, try_catch. unfold bind at 1. now rewrite He, Herr. }
    simpl. do 3 (split; [reflexivity|]). exists n. split; [assumption|].
    now rewrite <- app_assoc.
  - intros Hempty.
    assert (run = (Normal tt, snd (setIsExpanding false w2))) as ->.
    { rewrite E. unfold try_finally, try_catch, bind, JSON_parse. now rewrite Hempty. }
    simpl. repeat split.
Qed.

Lemma expansion_without_batch_witness :
  (categories (ui (snd (handleExpand Ex.host_garbled (ui Ex.world0) Ex.world0)))
   = categories (ui Ex.world0)
   ∧ imageStorage (snd (handleExpand Ex.host_garbled (ui Ex.world0) Ex.world0))
     = imageStorage Ex.world0
   ∧ isExpanding (ui (snd (handleExpand Ex.host_garbled (ui Ex.world0) Ex.world0))) = false
   ∧ ∃ n, user_facing n = true
          ∧ log (snd (handleExpand Ex.host_garbled (ui Ex.world0) Ex.world0))
            = (log Ex.world0
               ++ [EvGenerateContent (expand_request "Fruits" [Ex.apple; Ex.banana]);
                   EvConsole "error" "Magic Error:"; n])%list)
  ∧ (fst (handleExpand Ex.host_silent (ui Ex.world0) Ex.world0) = Normal tt
     ∧ categories (ui (snd (handleExpand Ex.host_silent (ui Ex.world0) Ex.world0)))
       = categories (ui Ex.world0)
     ∧ imageStorage (snd (handleExpand Ex.host_silent (ui Ex.world0) Ex.world0))
       = imageStorage Ex.world0
     ∧ isExpanding (ui (snd (handleExpand Ex.host_silent (ui Ex.world0) Ex.world0))) = false
     ∧ log (snd (handleExpand Ex.host_silent (ui Ex.world0) Ex.world0))
       = (log Ex.world0
          ++ [EvGenerateContent (expand_request "Fruits" [Ex.apple; Ex.banana])])%list).
Proof.
  split.
  - refine (proj1 (expansion_without_batch Ex.host_garbled Ex.world0 Ex.world0 Ex.fruits true "k"
                     (mkResponse (Some "Sure! Here are ten words") None) _ _ _ _ _ _) _);
      (reflexivity || discriminate).
  - refine (proj2 (expansion_without_batch Ex.host_silent Ex.world0 Ex.world0 Ex.fruits true "k"
                     (mkResponse None None) _ _ _ _ _ _) _);
      (reflexivity || discriminate).
Defined.

(** C4 (as stated) fails: an answer that is not a JSON text, and an answer
    that is a JSON object, both end in an alert box shown to the learner. *)
Lemma malformed_answer_alerts :
  malformed "Sure! Here are ten words" = true
  ∧ shown (log (snd (handleExpand Ex.host_garbled Ex.ui0 Ex.world0)))
    = [EvAlert "The Magic is taking a break (Connection error). Please try again in a moment!"]
  ∧ malformed (Str.dq "{'items':[]}") = true
  ∧ shown (log (snd (handleExpand Ex.host_object Ex.ui0 Ex.world0)))
    = [EvAlert "The Magic is taking a break (Connection error). Please try again in a moment!"].
Proof. repeat split; vm_compute; reflexivity. Qed.

(** ** Images *)

Lemma first_image_nonempty (parts : list Part) (u : string) :
  first_image parts = Some u → String.eqb u "" = false.
Proof.
  induction parts as [|p parts IH]; simpl; [discriminate|].
  destruct (inlineData p); [|assumption]. now intros [= <-].
Qed.

Lemma image_url_nonempty (r : Response) (u : string) :
  image_url r = Some u → String.eqb u "" = false.
Proof.
  unfold image_url. destruct (first_parts r); [apply first_image_nonempty | discriminate].
Qed.

Lemma requests_app (a b : list Event) : requests (a ++ b) = (requests a ++ requests b)%list.
Proof. unfold requests. apply omap_app. Qed.

(** C2 (as amended) [handleImageGen] never reads the asset cache.  When it is
    not busy, an item is displayed, the key check completes and a key is set,
    it sends exactly one request to the remote model, whatever the cache
    holds; when the answer carries an image, the image is written to the cache
    under the key of the item and displayed.  The cache is read by the display
    effect alone, which sends nothing to the remote model. *)
Theorem image_gen_requests_once (host : Host) (w w1 : World) (cat : Category.t)
    (item : Item.t) (b : bool) (k : string) :
  isGeneratingImg (ui w) = false →
  selectedCategory (state (ui w)) = Some cat →
  item_at (Category.items cat) (learningIndex (ui w)) = Some item →
  ensureApiKey host w = (Normal b, w1) →
  API_KEY host (log w1) = Some k → k ≠ "" →
  let w' := snd (handleImageGen host (ui w) w) in
  (∃ evs, log w' = (log w ++ evs)%list
          ∧ requests evs = [image_request (Item.name item)])
  ∧ (∀ r url, generateContent host (log w1) (image_request (Item.name item)) = Normal r →
              image_url r = Some url →
              imageStorage w' = <[image_key item := url]> (imageStorage w)
              ∧ itemImage (ui w') = Some url)
  ∧ (view (state (ui w)) = learning_detail →
     log (snd (loadImage (ui w) w)) = log w
     ∧ itemImage (ui (snd (loadImage (ui w) w))) = imageStorage w !! image_key item).
Proof.
  intros Hfree Hcat Hitem Hkey Hk Hne w'.
  destruct (ensureApiKey_run host w) as (r0 & evs0 & Hrun0 & Hreq0 & _).
  rewrite Hkey in Hrun0. injection Hrun0 as <- ->.
  set (req := image_request (Item.name item)).
  assert (∃ res, handleImageGen host (ui w) w
                 = try_finally
                     (try_catch
                        (let* url := (fun w0 => (res, w0)) in
                         match url with
                         | Some u =>
                             if String.eqb u "" then ret tt
                             else imageStorage_set (image_key item) u >> setItemImage (Some u)
                         | None => ret tt
                         end)
                        (fun e => handleApiError host e))
                     (setIsGeneratingImg false)
                     (logged (generating (logged w evs0)) [EvGenerateContent req])
                 ∧ res = match generateContent host (log (logged w evs0)) req with
                         | Normal r => Normal (image_url r)
                         | Throw e => Throw e
                         end) as (res & E & Hres).
  { eexists. split; [|reflexivity].
    unfold handleImageGen. rewrite Hfree, Hcat. simpl. rewrite Hitem.
    unfold bind at 1. rewrite Hkey.
    unfold bind at 1. change (setIsGeneratingImg true (logged w evs0))
      with (Normal tt, generating (logged w evs0)).
    apply try_finally_run, try_catch_run, bind_run.
    unfold generateItemImage. unfold bind at 1.
    rewrite (getClient_ok host k) by assumption.
    unfold bind at 1. unfold ai_models_generateContent. rewrite call_run.
    change (log (generating (logged w evs0))) with (log (logged w evs0)).
    now destruct (generateContent _ _ _). }
  subst w'. rewrite E. clear E.
  unfold try_finally, try_catch, bind. split; [|split].
  - destruct res as [[u|]|e].
    + destruct (String.eqb u ""); simpl; rewrite <- app_assoc; eexists;
        (split; [reflexivity|]); now rewrite requests_app, Hreq0.
    + simpl. rewrite <- app_assoc. eexists. split; [reflexivity|].
      now rewrite requests_app, Hreq0.
    + destruct (handleApiError_log host e
                  (logged (generating (logged w evs0)) [EvGenerateContent req]))
        as (r1 & evs1 & -> & Hreq1 & _).
      simpl. rewrite <- !app_assoc. eexists. split; [reflexivity|].
      rewrite requests_app, Hreq0, requests_app, Hreq1. reflexivity.
  - intros r url Hans Hurl. rewrite Hans, Hurl in Hres. subst res.
    rewrite (image_url_nonempty _ _ Hurl). simpl. now split.
  - intros Hview. unfold loadImage. rewrite Hview, Hcat, Hitem. simpl. now split.
Qed.

Lemma image_gen_requests_once_witness :
  let w' := snd (handleImageGen Ex.host_ok (ui Ex.cached_world) Ex.cached_world) in
  (∃ evs, log w' = (log Ex.cached_world ++ evs)%list
          ∧ requests evs = [image_request (Item.name Ex.apple)])
  ∧ (∀ r url, generateContent Ex.host_ok (log Ex.cached_world)
                (image_request (Item.name Ex.apple)) = Normal r →
              image_url r = Some url →
              imageStorage w' = <[image_key Ex.apple := url]> (imageStorage Ex.cached_world)
              ∧ itemImage (ui w') = Some url)
  ∧ (view (state (ui Ex.cached_world)) = learning_detail →
     log (snd (loadImage (ui Ex.cached_world) Ex.cached_world)) = log Ex.cached_world
     ∧ itemImage (ui (snd (loadImage (ui Ex.cached_world) Ex.cached_world)))
       = imageStorage Ex.cached_world !! image_key Ex.apple).
Proof.
  apply (image_gen_requests_once Ex.host_ok Ex.cached_world Ex.cached_world
           Ex.fruits Ex.apple true "k");
    (reflexivity || discriminate).
Defined.

(** C2 (as stated) fails: with a picture of the apple in the cache,
    [handleImageGen] still sends a request to the remote model; and two calls
    in a row, the second one made after the first has written the cache, send
    two requests. *)
Lemma image_gen_ignores_cache :
  imageStorage Ex.cached_world !! image_key Ex.apple = Some "data:image/png;base64,AAAA"
  ∧ requests (log (snd (handleImageGen Ex.host_ok (ui Ex.cached_world) Ex.cached_world)))
    = [image_request (JStr "Apple")]
  ∧ imageStorage Ex.drawn_once !! image_key Ex.apple = Some "data:image/png;base64,iVBORw"
  ∧ requests (log Ex.drawn_twice)
    = [image_request (JStr "Apple"); image_request (JStr "Apple")].
Proof. repeat split; vm_compute; reflexivity. Qed.

(** ** The stored catalog *)

(** C1 (as amended) With no stored record, or an empty one, the catalog
    starts as the built-in one.  A stored record that is not a JSON text makes
    the initializer throw a [SyntaxError], and the component does not mount.
    A stored record that is a JSON text is used as the catalog as it is,
    whatever its shape. *)
Theorem initial_categories_cases (host : Host) (INITIAL : list Category.t)
    (store : gmap string string) :
  let saved := store !! "kids_joy_v5_data" in
  (saved = None ∨ saved = Some "" →
     initial_categories host INITIAL store = Normal (catalog_to_js INITIAL))
  ∧ (∀ s, saved = Some s → s ≠ "" → JSON.parse s = None →
          ∃ e, initial_categories host INITIAL store = Throw e
               ∧ ename e = "SyntaxError"
               ∧ mount host INITIAL store = Throw e)
  ∧ (∀ s v, saved = Some s → s ≠ "" → JSON.parse s = Some v →
            initial_categories host INITIAL store = Normal v).
Proof.
  intros saved. subst saved. unfold mount, initial_categories. repeat split.
  - intros [-> | ->]; reflexivity.
  - intros s -> Hne Hparse. apply String.eqb_neq in Hne. rewrite Hne, Hparse.
    eexists. repeat split.
  - intros s v -> Hne Hparse. apply String.eqb_neq in Hne. now rewrite Hne, Hparse.
Qed.

Lemma initial_categories_cases_witness :
  (∃ e, initial_categories Ex.host_ok Ex.catalog Ex.store_cut = Throw e
        ∧ ename e = "SyntaxError"
        ∧ mount Ex.host_ok Ex.catalog Ex.store_cut = Throw e)
  ∧ initial_categories Ex.host_ok Ex.catalog Ex.store_number = Normal (JNum "42")
  ∧ initial_categories Ex.host_ok Ex.catalog ∅ = Normal (catalog_to_js Ex.catalog).
Proof.
  split; [|split].
  - apply (proj1 (proj2 (initial_categories_cases Ex.host_ok Ex.catalog Ex.store_cut)) "[{");
      (reflexivity || discriminate).
  - apply (proj2 (proj2 (initial_categories_cases Ex.host_ok Ex.catalog Ex.store_number)) "42");
      (reflexivity || discriminate).
  - apply (proj1 (initial_categories_cases Ex.host_ok Ex.catalog ∅)). now left.
Defined.

(** C1 (as stated) fails: a stored text cut short is not a JSON text, and the
    initializer throws; a stored number is not catalog data, and it becomes
    the catalog; a stored [null] passes the initializer and the first render
    throws on [categories[0]]. *)
Lemma corrupt_record_not_recovered :
  JSON.parse "[{" = None
  ∧ initial_categories Ex.host_ok Ex.catalog Ex.store_cut
    = Throw (mkError "SyntaxError" (JStr "Unexpected token in JSON"))
  ∧ is_catalog (JNum "42") = false
  ∧ initial_categories Ex.host_ok Ex.catalog Ex.store_number = Normal (JNum "42")
  ∧ Normal (JNum "42") ≠ Normal (catalog_to_js Ex.catalog)
  ∧ is_catalog JNull = false
  ∧ mount Ex.host_ok Ex.catalog Ex.store_null
    = Throw (mkError "TypeError" (JStr "Cannot read properties of null")).
Proof. repeat split; try (vm_compute; reflexivity). discriminate. Qed.

(** The shape test accepts the image of typed catalog data. *)
Example catalog_is_catalog : is_catalog (catalog_to_js Ex.catalog) = true.
Proof. reflexivity. Qed.

(** ** The category picker *)

Lemma pickCategory_run (snap : UI) (c : Category.t) (w : World) :
  let w' := snd (pickCategory snap c w) in
  selectedCategory (state (ui w')) = Some c
  ∧ learningIndex (ui w') = 0%Z
  ∧ showPersian (ui w') = showPersian (ui w).
Proof. repeat split. Qed.

(** The second revision of the picker also hides the localized name. *)
Lemma pickCategory_v9_run (snap : UI) (c : Category.t) (w : World) :
  let w' := snd (V9.pickCategory snap c w) in
  selectedCategory (state (ui w')) = Some c
  ∧ learningIndex (ui w') = 0%Z
  ∧ showPersian (ui w') = false.
Proof. repeat split. Qed.

(** The topic buttons of the second revision's overlay change the category
    and leave both the index and the toggle as they are. *)
Lemma pickFromOverlay_run (snap : UI) (c : Category.t) (w : World) :
  let w' := snd (V9.pickFromOverlay snap c w) in
  selectedCategory (state (ui w')) = Some c
  ∧ view (state (ui w')) = learning_detail
  ∧ learningIndex (ui w') = learningIndex (ui w)
  ∧ showPersian (ui w') = showPersian (ui w).
Proof. repeat split. Qed.

(** PREV and NEXT, in both revisions, hide the localized name. *)
Lemma prev_next_hide (snap : UI) (w : World) :
  showPersian (ui (snd (prevItem snap w))) = false
  ∧ showPersian (ui (snd (nextItem snap w))) = false.
Proof. split; reflexivity. Qed.

(** C9 In the first revision the picker resets the index but leaves the
    localized name revealed: from the second fruit with its localized name
    shown, picking Animals selects Animals at index 0 with the toggle still
    set. *)
Theorem picker_keeps_reveal :
  let w' := snd (pickCategory Ex.ui_revealed Ex.animals Ex.world_revealed) in
  view (state (ui Ex.world_revealed)) = learning_detail
  ∧ showPersian (ui Ex.world_revealed) = true
  ∧ selectedCategory (state (ui w')) = Some Ex.animals
  ∧ learningIndex (ui w') = 0%Z
  ∧ showPersian (ui w') = true.
Proof. repeat split. Qed.

(** * Further properties of the component *)

(** ** Navigation inside a category *)

Lemma nextItem_index (snap : UI) (w : World) :
  learningIndex (ui (snd (nextItem snap w)))
  = (if (learningIndex (ui w) <? items_length snap - 1)%Z
     then learningIndex (ui w) + 1 else 0)%Z.
Proof. reflexivity. Qed.

Lemma prevItem_index (snap : UI) (w : World) :
  learningIndex (ui (snd (prevItem snap w)))
  = (if (0 <? learningIndex (ui w))%Z
     then learningIndex (ui w) - 1 else items_length snap - 1)%Z.
Proof. reflexivity. Qed.

Lemma nav_state (snap : UI) (w : World) :
  state (ui (snd (nextItem snap w))) = state (ui w)
  ∧ state (ui (snd (prevItem snap w))) = state (ui w).
Proof. split; reflexivity. Qed.

Lemma nextItem_mod (w : World) (cat : Category.t) :
  selectedCategory (state (ui w)) = Some cat →
  let K := Z.of_nat (length (Category.items cat)) in
  (0 ≤ learningIndex (ui w) < K)%Z →
  learningIndex (ui (snd (from_render nextItem w)))
  = ((learningIndex (ui w) + 1) mod K)%Z.
Proof.
  intros Hsel K Hi.
  assert (items_length (ui w) = K) as HK by (unfold items_length; now rewrite Hsel).
  unfold from_render. rewrite nextItem_index, HK.
  destruct (Z.ltb_spec (learningIndex (ui w)) (K - 1)).
  - symmetry. apply Z.mod_small. lia.
  - replace (learningIndex (ui w) + 1)%Z with K by lia. symmetry. apply Z.mod_same. lia.
Qed.

(** X1 In a category of K items, K at least one, NEXT and PREV pressed on an
    index within bounds move it by one modulo K: the index stays within
    bounds, an item is still displayed, NEXT on the last item gives the first
    and PREV on the first gives the last. *)
Theorem navigation_wraps (w : World) (cat : Category.t) :
  selectedCategory (state (ui w)) = Some cat →
  let K := Z.of_nat (length (Category.items cat)) in
  let i := learningIndex (ui w) in
  (0 ≤ i < K)%Z →
  let next := learningIndex (ui (snd (from_render nextItem w))) in
  let prev := learningIndex (ui (snd (from_render prevItem w))) in
  next = ((i + 1) mod K)%Z ∧ prev = ((i - 1) mod K)%Z
  ∧ (i = K - 1 → next = 0)%Z ∧ (i = 0 → prev = K - 1)%Z
  ∧ is_Some (item_at (Category.items cat) next)
  ∧ is_Some (item_at (Category.items cat) prev).
Proof.
  intros Hsel K i Hi next prev.
  assert (items_length (ui w) = K) as HK by (unfold items_length; now rewrite Hsel).
  assert (next = (i + 1) mod K)%Z as Hn.
  { subst next. unfold from_render. rewrite nextItem_index, HK. fold i.
    destruct (Z.ltb_spec i (K - 1)).
    - symmetry. apply Z.mod_small. lia.
    - replace (i + 1)%Z with K by lia. symmetry. apply Z.mod_same. lia. }
  assert (prev = (i - 1) mod K)%Z as Hp.
  { subst prev. unfold from_render. rewrite prevItem_index, HK. fold i.
    destruct (Z.ltb_spec 0 i).
    - symmetry. apply Z.mod_small. lia.
    - replace (i - 1)%Z with (-1)%Z by lia.
      apply Z.mod_unique with (q := (-1)%Z); lia. }
  assert (∀ j, (0 ≤ j < K)%Z → is_Some (item_at (Category.items cat) j)) as Hat.
  { intros j Hj. unfold item_at. destruct (Z.ltb_spec j 0); [lia|].
    apply lookup_lt_is_Some. subst K. lia. }
  assert (0 < K)%Z as HK0 by lia.
  pose proof (Z.mod_pos_bound (i + 1) K HK0). pose proof (Z.mod_pos_bound (i - 1) K HK0).
  split; [exact Hn|]. split; [exact Hp|].
  split; [intros ->; rewrite Hn; replace (K - 1 + 1)%Z with K by lia; apply Z.mod_same; lia|].
  split; [intros E; rewrite Hp, E; symmetry; apply Z.mod_unique with (q := (-1)%Z); lia|].
  split; apply Hat; [rewrite Hn | rewrite Hp]; assumption.
Qed.

Lemma navigation_wraps_witness :
  let next := learningIndex (ui (snd (from_render nextItem Ex.world_revealed))) in
  let prev := learningIndex (ui (snd (from_render prevItem Ex.world_revealed))) in
  next = ((1 + 1) mod 2)%Z ∧ prev = ((1 - 1) mod 2)%Z
  ∧ (1 = 2 - 1 → next = 0)%Z ∧ (1 = 0 → prev = 2 - 1)%Z
  ∧ is_Some (item_at (Category.items Ex.fruits) next)
  ∧ is_Some (item_at (Category.items Ex.fruits) prev).
Proof.
  apply (navigation_wraps Ex.world_revealed Ex.fruits); [reflexivity | simpl; lia].
Defined.

(** The index after [n] presses of NEXT. *)
Lemma presses_next_index (n : nat) :
  ∀ (w : World) (cat : Category.t),
    selectedCategory (state (ui w)) = Some cat →
    let K := Z.of_nat (length (Category.items cat)) in
    (0 ≤ learningIndex (ui w) < K)%Z →
    learningIndex (ui (snd (presses n nextItem w)))
    = ((learningIndex (ui w) + Z.of_nat n) mod K)%Z
    ∧ state (ui (snd (presses n nextItem w))) = state (ui w).
Proof.
  induction n as [|n IH]; intros w cat Hsel K Hi.
  - simpl. split; [|reflexivity]. rewrite Z.add_0_r. symmetry. apply Z.mod_small. exact Hi.
  - pose proof (nextItem_mod w cat Hsel Hi) as Hn.
    change (presses (S n) nextItem w)
      with (presses n nextItem (snd (from_render nextItem w))).
    set (w1 := snd (from_render nextItem w)) in *.
    assert (state (ui w1) = state (ui w)) as Hst by reflexivity.
    assert (selectedCategory (state (ui w1)) = Some cat) as Hsel1 by now rewrite Hst.
    assert (0 ≤ learningIndex (ui w1) < K)%Z as Hi1.
    { rewrite Hn. apply Z.mod_pos_bound. lia. }
    destruct (IH w1 cat Hsel1 Hi1) as (Hidx & Hstate).
    split; [|now rewrite Hstate].
    rewrite Hidx, Hn. fold K. rewrite Zplus_mod_idemp_l. f_equal. lia.
Qed.

(** X2 On an index within bounds NEXT and PREV undo each other, and K
    presses of NEXT in a category of K items come back to the item they
    started from. *)
Theorem navigation_round_trips (w : World) (cat : Category.t) :
  selectedCategory (state (ui w)) = Some cat →
  let K := length (Category.items cat) in
  let i := learningIndex (ui w) in
  (0 ≤ i < Z.of_nat K)%Z →
  learningIndex (ui (snd ((from_render nextItem >> from_render prevItem) w))) = i
  ∧ learningIndex (ui (snd ((from_render prevItem >> from_render nextItem) w))) = i
  ∧ learningIndex (ui (snd (presses K nextItem w))) = i.
Proof.
  intros Hsel K i Hi.
  assert (items_length (ui w) = Z.of_nat K) as HK by (unfold items_length; now rewrite Hsel).
  split; [|split].
  - change (snd ((from_render nextItem >> from_render prevItem) w))
      with (snd (prevItem (ui (snd (nextItem (ui w) w))) (snd (nextItem (ui w) w)))).
    rewrite prevItem_index, nextItem_index.
    change (items_length (ui (snd (nextItem (ui w) w)))) with (items_length (ui w)).
    rewrite HK. fold i.
    destruct (Z.ltb_spec i (Z.of_nat K - 1)).
    + destruct (Z.ltb_spec 0 (i + 1)); lia.
    + destruct (Z.ltb_spec 0 0); lia.
  - change (snd ((from_render prevItem >> from_render nextItem) w))
      with (snd (nextItem (ui (snd (prevItem (ui w) w))) (snd (prevItem (ui w) w)))).
    rewrite nextItem_index, prevItem_index.
    change (items_length (ui (snd (prevItem (ui w) w)))) with (items_length (ui w)).
    rewrite HK. fold i.
    destruct (Z.ltb_spec 0 i).
    + destruct (Z.ltb_spec (i - 1) (Z.of_nat K - 1)); lia.
    + destruct (Z.ltb_spec (Z.of_nat K - 1) (Z.of_nat K - 1)); lia.
  - destruct (presses_next_index K w cat Hsel Hi) as (-> & _). fold i K.
    rewrite <- (Z.mul_1_l (Z.of_nat K)) at 1.
    rewrite Z.mod_add by lia. apply Z.mod_small. exact Hi.
Qed.

(** X3 In a category with no items, PREV on index 0 moves the index to -1
    and NEXT leaves it at 0; at index -1 no item is displayed, and both the
    image button and the display effect do nothing. *)
Theorem navigation_empty_category (host : Host) (w : World) (cat : Category.t) :
  selectedCategory (state (ui w)) = Some cat →
  Category.items cat = [] →
  learningIndex (ui w) = 0%Z →
  let w1 := snd (from_render prevItem w) in
  learningIndex (ui w1) = (-1)%Z
  ∧ learningIndex (ui (snd (from_render nextItem w))) = 0%Z
  ∧ item_at (Category.items cat) (learningIndex (ui w1)) = None
  ∧ from_render (handleImageGen host) w1 = (Normal tt, w1)
  ∧ from_render loadImage w1 = (Normal tt, w1).
Proof.
  intros Hsel Hitems Hidx w1.
  assert (items_length (ui w) = 0%Z) as HK.
  { unfold items_length. now rewrite Hsel, Hitems. }
  assert (learningIndex (ui w1) = (-1)%Z) as H1.
  { subst w1. unfold from_render. now rewrite prevItem_index, Hidx, HK. }
  assert (selectedCategory (state (ui w1)) = Some cat) as Hsel1 by exact Hsel.
  clearbody w1.
  split; [exact H1|]. split.
  { unfold from_render. now rewrite nextItem_index, Hidx, HK. }
  split; [now rewrite H1, Hitems|].
  split.
  - unfold from_render, handleImageGen. rewrite Hsel1. simpl.
    rewrite H1, Hitems. simpl. now destruct (isGeneratingImg (ui w1)).
  - unfold from_render, loadImage. rewrite Hsel1, H1, Hitems. simpl.
    now destruct (view (state (ui w1))).
Qed.

(** ** What the adapters and the handlers leave untouched *)

Section Frames.

Variable host : Host.

(** A world whose clock has been read [n] more times and whose log has
    grown by [evs]: nothing else differs. *)
Lemma Array_map_mint_keeps (c : string) (l : list JSValue) :
  ∀ (index : nat) (w : World),
    ∃ r n, Array_map (mint host c) index l w
           = (r, mkWorld (ui w) (imageStorage w) (clock w + n) (log w))
           ∧ (n ≤ length l)%nat.
Proof.
  induction l as [|it l IH]; intros index w; simpl.
  - exists (Normal []), 0%nat. unfold ret. destruct w. simpl. rewrite Nat.add_0_r. now split.
  - unfold bind at 1. destruct (mint_run host c it index w) as (r & -> & _).
    destruct r as [x|e].
    + unfold bind at 1.
      destruct (IH (S index) (mkWorld (ui w) (imageStorage w) (S (clock w)) (log w)))
        as (r' & n & -> & Hn).
      simpl. destruct r' as [xs|e]; unfold ret; eexists _, (S n);
        (split; [f_equal; f_equal; lia | lia]).
    + exists (Throw e), 1%nat. split; [f_equal; f_equal; lia | lia].
Qed.

Lemma expandCategoryItems_keeps (c : string) (existing : list Item.t) (w : World) :
  ∃ r n evs, expandCategoryItems host c existing w
             = (r, mkWorld (ui w) (imageStorage w) (clock w + n) (log w ++ evs))
             ∧ (evs = [] ∨ evs = [EvGenerateContent (expand_request c existing)]).
Proof.
  unfold expandCategoryItems. unfold bind at 1. unfold getClient.
  assert (∀ e : Error, ∃ (r : Completion (list Item.t)) (n : nat) (evs : list Event),
             (Throw e, w) = (r, mkWorld (ui w) (imageStorage w) (clock w + n) (log w ++ evs))
             ∧ (evs = [] ∨ evs = [EvGenerateContent (expand_request c existing)])) as Hstop.
  { intros e. exists (Throw e), 0%nat, []. destruct w. simpl.
    rewrite Nat.add_0_r, app_nil_r. split; [reflexivity | now left]. }
  destruct (API_KEY host (log w)) as [k|]; [destruct (String.eqb k "")|];
    try apply Hstop.
  unfold bind at 1. unfold ai_models_generateContent. rewrite call_run.
  destruct (generateContent host (log w) _) as [resp|e].
  - unfold bind at 1, JSON_parse.
    destruct (JSON.parse (text_or_empty_array resp)) as [data|].
    + unfold ret, data_map.
      destruct data;
        try (eexists _, 0%nat, _; split; [unfold throw, logged; simpl; rewrite Nat.add_0_r;
                                          reflexivity | now right]).
      destruct (Array_map_mint_keeps c elements 0
                  (logged w [EvGenerateContent (expand_request c existing)]))
        as (r & n & -> & _).
      eexists r, n, _. split; [reflexivity | now right].
    + eexists _, 0%nat, _. split; [unfold throw, logged; simpl; rewrite Nat.add_0_r;
                                    reflexivity | now right].
  - eexists _, 0%nat, _. split; [unfold logged; simpl; rewrite Nat.add_0_r; reflexivity
                                 | now right].
Qed.

Lemma generateItemImage_keeps (name : JSValue) (c : string) (w : World) :
  ∃ r evs, generateItemImage host name c w = (r, logged w evs)
           ∧ (evs = [] ∨ evs = [EvGenerateContent (image_request name)])
           ∧ ∀ u, r = Normal (Some u) →
                  String.eqb u "" = false
                  ∧ evs = [EvGenerateContent (image_request name)].
Proof.
  unfold generateItemImage. unfold bind at 1. unfold getClient.
  assert (∀ e : Error, ∃ (r : Completion (option string)) (evs : list Event),
             (Throw e, w) = (r, logged w evs)
             ∧ (evs = [] ∨ evs = [EvGenerateContent (image_request name)])
             ∧ ∀ u, r = Normal (Some u) →
                    String.eqb u "" = false
                    ∧ evs = [EvGenerateContent (image_request name)]) as Hstop.
  { intros e. exists (Throw e), []. rewrite logged_nil.
    split; [reflexivity|]. split; [now left | discriminate]. }
  destruct (API_KEY host (log w)) as [k|]; [destruct (String.eqb k "")|];
    try apply Hstop.
  unfold bind at 1. unfold ai_models_generateContent. rewrite call_run.
  destruct (generateContent host (log w) _) as [resp|e].
  - unfold ret. eexists _, _. split; [reflexivity|]. split; [now right|].
    intros u [= Hu]. split; [now apply image_url_nonempty with resp | reflexivity].
  - eexists _, _. split; [reflexivity|]. split; [now right | discriminate].
Qed.


(** Past its guards and its key check, each handler is its [try] statement
    run with the busy flag set. *)
Lemma handleExpand_run (snap : UI) (w w1 : World) (sel : Category.t) (b : bool) :
  isExpanding snap = false →
  selectedCategory (state snap) = Some sel →
  ensureApiKey host w = (Normal b, w1) →
  handleExpand host snap w
  = try_finally
      (try_catch
         (let* newItems :=
            expandCategoryItems host (Category.name sel) (Category.items sel) in
          if (0 <? length newItems)%nat then
            setCategories (merge (categories snap) sel newItems) >>
            setState (fun s => with_selectedCategory s
                                 (refreshed (merge (categories snap) sel newItems) s))
          else ret tt)
         (fun e => handleApiError host e))
      (setIsExpanding false) (expanding w1).
Proof.
  intros Hfree Hsel Hkey. unfold handleExpand. rewrite Hfree, Hsel.
  unfold bind at 1. rewrite Hkey. reflexivity.
Qed.

Lemma handleImageGen_run (snap : UI) (w w1 : World) (cat : Category.t) (item : Item.t) (b : bool) :
  isGeneratingImg snap = false →
  selectedCategory (state snap) = Some cat →
  item_at (Category.items cat) (learningIndex snap) = Some item →
  ensureApiKey host w = (Normal b, w1) →
  handleImageGen host snap w
  = try_finally
      (try_catch
         (let* url := generateItemImage host (Item.name item) (Category.name cat) in
          match url with
          | Some u =>
              if String.eqb u "" then ret tt
              else imageStorage_set (image_key item) u >> setItemImage (Some u)
          | None => ret tt
          end)
         (fun e => handleApiError host e))
      (setIsGeneratingImg false) (generating w1).
Proof.
  intros Hfree Hcat Hitem Hkey. unfold handleImageGen. rewrite Hfree, Hcat. simpl.
  rewrite Hitem. unfold bind at 1. rewrite Hkey. reflexivity.
Qed.

(** Clearing a flag that is not set changes nothing. *)
Lemma ui_eta_expanding (u : UI) :
  isExpanding u = false →
  mkUI (categories u) (state u) (learningIndex u) (showPersian u)
       (isSpeaking u) false (isGeneratingImg u) (itemImage u) = u.
Proof. destruct u. simpl. now intros ->. Qed.

Lemma ui_eta_generating (u : UI) :
  isGeneratingImg u = false →
  mkUI (categories u) (state u) (learningIndex u) (showPersian u)
       (isSpeaking u) (isExpanding u) false (itemImage u) = u.
Proof. destruct u. simpl. now intros ->. Qed.

Lemma ui_eta_speaking (u : UI) :
  isSpeaking u = false →
  mkUI (categories u) (state u) (learningIndex u) (showPersian u)
       false (isExpanding u) (isGeneratingImg u) (itemImage u) = u.
Proof. destruct u. simpl. now intros ->. Qed.

(** The outcome of each handler, by the outcome of its adapter call. *)
Lemma handleExpand_throw (snap : UI) (w w1 w2 : World) (sel : Category.t) (b : bool) (e : Error) :
  isExpanding snap = false →
  selectedCategory (state snap) = Some sel →
  ensureApiKey host w = (Normal b, w1) →
  expandCategoryItems host (Category.name sel) (Category.items sel) (expanding w1)
    = (Throw e, w2) →
  handleExpand host snap w
  = (fst (handleApiError host e w2),
     snd (setIsExpanding false (snd (handleApiError host e w2)))).
Proof.
  intros Hfree Hsel Hkey Hrun. rewrite (handleExpand_run snap w w1 sel b Hfree Hsel Hkey).
  unfold try_finally, try_catch. unfold bind at 1. rewrite Hrun.
  now destruct (handleApiError host e w2).
Qed.


Lemma handleExpand_batch (snap : UI) (w w1 w2 : World) (sel : Category.t) (b : bool)
    (x : Item.t) (xs : list Item.t) :
  isExpanding snap = false →
  selectedCategory (state snap) = Some sel →
  ensureApiKey host w = (Normal b, w1) →
  expandCategoryItems host (Category.name sel) (Category.items sel) (expanding w1)
    = (Normal (x :: xs), w2) →
  handleExpand host snap w
  = (Normal tt,
     snd (setIsExpanding false
            (snd (setState (fun s => with_selectedCategory s
                              (refreshed (merge (categories snap) sel (x :: xs)) s))
                    (snd (setCategories (merge (categories snap) sel (x :: xs)) w2)))))).
Proof.
  intros Hfree Hsel Hkey Hrun. rewrite (handleExpand_run snap w w1 sel b Hfree Hsel Hkey).
  unfold try_finally, try_catch. unfold bind at 1. now rewrite Hrun.
Qed.

Lemma handleImageGen_throw (snap : UI) (w w1 w2 : World) (cat : Category.t) (item : Item.t)
    (b : bool) (e : Error) :
  isGeneratingImg snap = false →
  selectedCategory (state snap) = Some cat →
  item_at (Category.items cat) (learningIndex snap) = Some item →
  ensureApiKey host w = (Normal b, w1) →
  generateItemImage host (Item.name item) (Category.name cat) (generating w1)
    = (Throw e, w2) →
  handleImageGen host snap w
  = (fst (handleApiError host e w2),
     snd (setIsGeneratingImg false (snd (handleApiError host e w2)))).
Proof.
  intros Hfree Hcat Hitem Hkey Hrun.
  rewrite (handleImageGen_run snap w w1 cat item b Hfree Hcat Hitem Hkey).
  unfold try_finally, try_catch. unfold bind at 1. rewrite Hrun.
  now destruct (handleApiError host e w2).
Qed.


Lemma handleImageGen_some (snap : UI) (w w1 w2 : World) (cat : Category.t) (item : Item.t)
    (b : bool) (u : string) :
  isGeneratingImg snap = false →
  selectedCategory (state snap) = Some cat →
  item_at (Category.items cat) (learningIndex snap) = Some item →
  ensureApiKey host w = (Normal b, w1) →
  generateItemImage host (Item.name item) (Category.name cat) (generating w1)
    = (Normal (Some u), w2) →
  handleImageGen host snap w
  = (Normal tt,
     snd (setIsGeneratingImg false
            (snd (setItemImage (Some u) (snd (imageStorage_set (image_key item) u w2)))))).
Proof.
  intros Hfree Hcat Hitem Hkey Hrun.
  rewrite (handleImageGen_run snap w w1 cat item b Hfree Hcat Hitem Hkey).
  destruct (generateItemImage_keeps (Item.name item) (Category.name cat) (generating w1))
    as (r & evs & Hk & _ & Hu).
  rewrite Hrun in Hk. injection Hk as <- Hw2. destruct (Hu u eq_refl) as (Hne & _).
  unfold try_finally, try_catch. unfold bind at 1. now rewrite Hrun, Hne.
Qed.

(** What the key check and the adapters leave of a world. *)
Lemma ensureApiKey_keeps (w w1 : World) (r : Completion bool) :
  ensureApiKey host w = (r, w1) →
  ui w1 = ui w ∧ imageStorage w1 = imageStorage w ∧ clock w1 = clock w.
Proof.
  destruct (ensureApiKey_run host w) as (r0 & evs0 & -> & _). now intros [= <- <-].
Qed.

Lemma expandCategoryItems_keeps_ui (c : string) (existing : list Item.t)
    (w w2 : World) (r : Completion (list Item.t)) :
  expandCategoryItems host c existing w = (r, w2) →
  ui w2 = ui w ∧ imageStorage w2 = imageStorage w.
Proof.
  destruct (expandCategoryItems_keeps c existing w) as (r0 & n & evs & -> & _).
  now intros [= <- <-].
Qed.

Lemma generateItemImage_keeps_ui (name : JSValue) (c : string)
    (w w2 : World) (r : Completion (option string)) :
  generateItemImage host name c w = (r, w2) →
  ui w2 = ui w ∧ imageStorage w2 = imageStorage w ∧ clock w2 = clock w.
Proof.
  destruct (generateItemImage_keeps name c w) as (r0 & evs & -> & _).
  now intros [= <- <-].
Qed.

Lemma handleApiError_keeps (e : Error) (w : World) :
  ui (snd (handleApiError host e w)) = ui w
  ∧ imageStorage (snd (handleApiError host e w)) = imageStorage w
  ∧ clock (snd (handleApiError host e w)) = clock w.
Proof.
  destruct (handleApiError_log host e w) as (r & evs & -> & _). repeat split.
Qed.

End Frames.

(** ** Expansion: failures, shape of a batch, selection *)

Lemma handleExpand_throw_keeps (host : Host) (w w1 w2 : World)
    (sel : Category.t) (b : bool) (e : Error) :
  isExpanding (ui w) = false →
  selectedCategory (state (ui w)) = Some sel →
  ensureApiKey host w = (Normal b, w1) →
  expandCategoryItems host (Category.name sel) (Category.items sel) (expanding w1)
    = (Throw e, w2) →
  let run := handleExpand host (ui w) w in
  ui (snd run) = ui w ∧ imageStorage (snd run) = imageStorage w
  ∧ (searchable (message_or_empty e) = true →
     ∃ n, user_facing n = true
          ∧ log (snd run) = (log w2 ++ [EvConsole "error" "Magic Error:"; n])%list)
  ∧ (searchable (message_or_empty e) = false →
     fst run = Throw (TypeError host (NotAFunction "msg.includes"))
     ∧ log (snd run) = (log w2 ++ [EvConsole "error" "Magic Error:"])%list).
Proof.
  intros Hfree Hsel Hkey Hrun run. subst run.
  rewrite (handleExpand_throw host (ui w) w w1 w2 sel b e Hfree Hsel Hkey Hrun).
  destruct (handleApiError_keeps host e w2) as (Hu & Hs & _).
  destruct (expandCategoryItems_keeps_ui host _ _ _ _ _ Hrun) as (Hu2 & Hs2).
  destruct (ensureApiKey_keeps host _ _ _ Hkey) as (Hu1 & Hs1 & _).
  cbn [fst snd setIsExpanding modify_ui ui imageStorage log].
  rewrite Hu, Hs, Hu2, Hs2. unfold expanding. cbn [snd setIsExpanding modify_ui ui imageStorage].
  rewrite Hu1, Hs1. simpl.
  split; [now apply ui_eta_expanding|]. split; [reflexivity|]. split.
  - intros Hsearch. destruct (handleApiError_run host e w2 Hsearch) as (r & n & -> & Hn).
    exists n. split; [assumption | reflexivity].
  - intros Hsearch. now rewrite (handleApiError_stuck host e w2 Hsearch).
Qed.



Section Batches.

Variable host : Host.

Lemma mint_value (c : string) (it : JSValue) (index : nat) (w : World) :
  fst (mint host c it index w)
  = if nullish it then Throw (TypeError host (PropertyOfNull "name"))
    else Normal (minted c (Date_now host (clock w)) index it).
Proof. destruct it; reflexivity. Qed.

Lemma Array_map_mint_items (c : string) (l : list JSValue) :
  ∀ (index : nat) (w w' : World) (ys : list Item.t),
    Array_map (mint host c) index l w = (Normal ys, w') →
    length ys = length l
    ∧ ∀ k it, l !! k = Some it →
              nullish it = false
              ∧ ys !! k = Some (minted c (Date_now host (clock w + k)) (index + k) it).
Proof.
  induction l as [|it l IH]; intros index w w' ys; simpl.
  - unfold ret. intros [= <- <-]. split; [reflexivity | intros k it' H; discriminate H].
  - unfold bind at 1. pose proof (mint_value c it index w) as Hv.
    destruct (mint_run host c it index w) as (r & Hr & _). rewrite Hr in *. simpl in Hv.
    destruct r as [x|e]; [|discriminate].
    unfold bind at 1.
    destruct (Array_map _ _ _ _) as [[xs|e] w1] eqn:E; [|discriminate].
    unfold ret. intros [= <- <-].
    destruct (IH _ _ _ _ E) as (Hl & Hk). simpl in Hk.
    split; [simpl; now rewrite Hl|].
    intros [|k] it'; simpl.
    + intros [= <-]. destruct (nullish it); [discriminate|]. injection Hv as ->.
      now rewrite !Nat.add_0_r.
    + intros H. destruct (Hk _ _ H) as (Hn & ->). split; [assumption|].
      do 2 f_equal; [f_equal; lia | lia].
Qed.

Lemma Array_map_mint_null (c : string) (l : list JSValue) :
  ∀ (index : nat) (w : World),
    Exists (fun it => nullish it = true) l →
    fst (Array_map (mint host c) index l w) = Throw (TypeError host (PropertyOfNull "name")).
Proof.
  induction l as [|it l IH]; intros index w Hex; [inversion Hex|].
  simpl. unfold bind at 1. pose proof (mint_value c it index w) as Hv.
  destruct (mint_run host c it index w) as (r & Hr & _). rewrite Hr in *. simpl in Hv.
  destruct (nullish it) eqn:Hn.
  - subst r. reflexivity.
  - subst r. unfold bind at 1.
    apply Exists_cons in Hex as [Hex|Hex]; [congruence|].
    specialize (IH (S index)
                  (mkWorld (ui w) (imageStorage w) (S (clock w)) (log w)) Hex).
    destruct (Array_map _ _ _ _) as [[xs|e] w1]; simpl in IH; [discriminate|].
    now rewrite IH.
Qed.

(** What a returned batch says about the answer it was built from. *)
Lemma expandCategoryItems_normal (c : string) (existing : list Item.t)
    (w w' : World) (items : list Item.t) :
  expandCategoryItems host c existing w = (Normal items, w') →
  ∃ r l, generateContent host (log w) (expand_request c existing) = Normal r
         ∧ JSON.parse (text_or_empty_array r) = Some (JArr l)
         ∧ Array_map (mint host c) 0 l
             (logged w [EvGenerateContent (expand_request c existing)])
           = (Normal items, w').
Proof.
  unfold expandCategoryItems, bind, getClient, ai_models_generateContent, JSON_parse.
  destruct (API_KEY host (log w)) as [key|]; [|discriminate].
  destruct (String.eqb key ""); [discriminate|].
  rewrite call_run.
  destruct (generateContent host (log w) _) as [resp|e]; [|discriminate].
  destruct (JSON.parse (text_or_empty_array resp)) as [data|] eqn:Hp; [|discriminate].
  unfold ret, data_map. destruct data; try discriminate.
  intros E. now exists resp, elements.
Qed.

End Batches.

(** X5 The items an expansion returns match the array of the answer position
    by position: as many items as elements, none of the elements [null], each
    item carrying the element's [name], [persianName] and [emoji] as they
    are, the colour [bg-white] and the identifier minted for its position;
    one request has been sent and the clock read once per element. *)
Theorem expand_items_shape (host : Host) (c : string) (existing : list Item.t)
    (w w' : World) (items : list Item.t) :
  expandCategoryItems host c existing w = (Normal items, w') →
  ∃ r l, generateContent host (log w) (expand_request c existing) = Normal r
         ∧ JSON.parse (text_or_empty_array r) = Some (JArr l)
         ∧ length items = length l
         ∧ log w' = (log w ++ [EvGenerateContent (expand_request c existing)])%list
         ∧ clock w' = (clock w + length l)%nat
         ∧ ∀ k it, l !! k = Some it →
                   nullish it = false
                   ∧ items !! k
                     = Some (Item.mk (dyn_id c (Date_now host (clock w + k)) k)
                               (property it "name") (property it "persianName")
                               (property it "emoji") "bg-white").
Proof.
  intros Hrun. destruct (expandCategoryItems_normal host _ _ _ _ _ Hrun) as (r & l & Hr & Hp & E).
  exists r, l. split; [assumption|]. split; [assumption|].
  destruct (Array_map_mint_items host c l _ _ _ _ E) as (Hl & Hk).
  destruct (Array_map_mint host c l _ _ _ _ E) as (Hc & _).
  destruct (Array_map_mint_keeps host c l 0
              (logged w [EvGenerateContent (expand_request c existing)])) as (r' & n & E' & _).
  rewrite E in E'. injection E' as _ ->.
  split; [assumption|]. split; [reflexivity|]. split; [exact Hc|].
  intros k it Hit. destruct (Hk k it Hit) as (Hn & Hy). split; [assumption|]. exact Hy.
Qed.

Lemma expand_items_shape_witness :
  ∃ r l, generateContent Ex.host_ok (log Ex.world0)
           (expand_request "Fruits" [Ex.apple; Ex.banana]) = Normal r
         ∧ JSON.parse (text_or_empty_array r) = Some (JArr l)
         ∧ length [Ex.cherry; Ex.date] = length l
         ∧ log Ex.expanded_once
           = (log Ex.world0
              ++ [EvGenerateContent (expand_request "Fruits" [Ex.apple; Ex.banana])])%list
         ∧ clock Ex.expanded_once = (clock Ex.world0 + length l)%nat
         ∧ ∀ k it, l !! k = Some it →
                   nullish it = false
                   ∧ [Ex.cherry; Ex.date] !! k
                     = Some (Item.mk (dyn_id "Fruits" (Date_now Ex.host_ok (clock Ex.world0 + k)) k)
                               (property it "name") (property it "persianName")
                               (property it "emoji") "bg-white").
Proof.
  apply (expand_items_shape Ex.host_ok "Fruits" [Ex.apple; Ex.banana]
           Ex.world0 Ex.expanded_once [Ex.cherry; Ex.date]).
  reflexivity.
Defined.

(** X6 A batch is merged whole or not at all: when the array of the answer
    holds a [null] anywhere, the adapter throws, and the expansion ends with
    the React state and the asset cache as they were (the elements before and
    after the [null] are not merged) and one notification shown. *)
Theorem expand_null_element_rejects_batch (host : Host) (w w1 : World)
    (sel : Category.t) (b : bool) (k : string) (r : Response) (l : list JSValue) :
  isExpanding (ui w) = false →
  selectedCategory (state (ui w)) = Some sel →
  ensureApiKey host w = (Normal b, w1) →
  API_KEY host (log w1) = Some k → k ≠ "" →
  generateContent host (log w1) (expand_request (Category.name sel) (Category.items sel))
    = Normal r →
  JSON.parse (text_or_empty_array r) = Some (JArr l) →
  Exists (fun it => nullish it = true) l →
  let w' := snd (handleExpand host (ui w) w) in
  fst (expandCategoryItems host (Category.name sel) (Category.items sel) (expanding w1))
  = Throw (TypeError host (PropertyOfNull "name"))
  ∧ ui w' = ui w ∧ imageStorage w' = imageStorage w
  ∧ ∃ n, user_facing n = true ∧ last (log w') = Some n.
Proof.
  intros Hfree Hsel Hkey Hk Hne Hans Hparse Hnull w'.
  assert (fst (expandCategoryItems host (Category.name sel) (Category.items sel) (expanding w1))
          = Throw (TypeError host (PropertyOfNull "name"))) as Hthrow.
  { rewrite (expandCategoryItems_answer host _ _ _ k r); try assumption.
    unfold bind, JSON_parse. rewrite Hparse. unfold ret, data_map.
    now apply Array_map_mint_null. }
  split; [exact Hthrow|].
  destruct (expandCategoryItems host (Category.name sel) (Category.items sel) (expanding w1))
    as [res w2] eqn:Hrun. simpl in Hthrow. subst res.
  destruct (handleExpand_throw_keeps host w w1 w2 sel b _ Hfree Hsel Hkey Hrun)
    as (Hu & Hs & Hshown & _).
  destruct (Hshown (TypeError_searchable host _)) as (n & Hn & Hl).
  split; [exact Hu|]. split; [exact Hs|].
  exists n. split; [assumption|]. subst w'. rewrite Hl.
  now rewrite (last_app _ [_; _]).
Qed.

Lemma expand_null_element_rejects_batch_witness :
  let w' := snd (handleExpand Ex2.host_null (ui Ex.world0) Ex.world0) in
  fst (expandCategoryItems Ex2.host_null (Category.name Ex.fruits) (Category.items Ex.fruits)
         (expanding Ex.world0))
  = Throw (TypeError Ex2.host_null (PropertyOfNull "name"))
  ∧ ui w' = ui Ex.world0 ∧ imageStorage w' = imageStorage Ex.world0
  ∧ ∃ n, user_facing n = true ∧ last (log w') = Some n.
Proof.
  apply (expand_null_element_rejects_batch Ex2.host_null Ex.world0 Ex.world0 Ex.fruits true "k"
           (mkResponse (Some Ex2.kiwi_null) None)
           [JObj [("name", JStr "Kiwi"); ("persianName", JStr "kivi"); ("emoji", JStr "k")];
            JNull]);
    try reflexivity; try discriminate.
  apply Exists_cons_tl, Exists_cons_hd. reflexivity.
Defined.

Lemma navigation_empty_category_witness :
  let w1 := snd (from_render prevItem Ex2.world_empty) in
  learningIndex (ui w1) = (-1)%Z
  ∧ learningIndex (ui (snd (from_render nextItem Ex2.world_empty))) = 0%Z
  ∧ item_at (Category.items Ex2.empty_cat) (learningIndex (ui w1)) = None
  ∧ from_render (handleImageGen Ex.host_ok) w1 = (Normal tt, w1)
  ∧ from_render loadImage w1 = (Normal tt, w1).
Proof.
  apply (navigation_empty_category Ex.host_ok Ex2.world_empty Ex2.empty_cat); reflexivity.
Defined.

Lemma navigation_round_trips_witness :
  learningIndex (ui (snd ((from_render nextItem >> from_render prevItem) Ex2.world_banana)))
  = learningIndex (ui Ex2.world_banana)
  ∧ learningIndex (ui (snd ((from_render prevItem >> from_render nextItem) Ex2.world_banana)))
    = learningIndex (ui Ex2.world_banana)
  ∧ learningIndex (ui (snd (presses (length (Category.items Ex.fruits)) nextItem
                              Ex2.world_banana)))
    = learningIndex (ui Ex2.world_banana).
Proof.
  apply (navigation_round_trips Ex2.world_banana Ex.fruits); [reflexivity | simpl; lia].
Defined.

(** The error of a missing key reads [API_KEY_MISSING], in capitals: none of
    the tests of the error handler finds its word in it. *)
Lemma handleApiError_missing_key (host : Host) (w : World) :
  handleApiError host (mkError "Error" (JStr "API_KEY_MISSING")) w
  = (Normal tt, logged w [EvConsole "error" "Magic Error:"; connection_alert]).
Proof.
  rewrite handleApiError_searched by reflexivity.
  change (message_or_empty (mkError "Error" (JStr "API_KEY_MISSING")))
    with (JStr "API_KEY_MISSING").
  change (mentions (JStr "API_KEY_MISSING") "401" || mentions (JStr "API_KEY_MISSING") "403"
          || mentions (JStr "API_KEY_MISSING") "key") with false.
  change (mentions (JStr "API_KEY_MISSING") "Safety"
          || mentions (JStr "API_KEY_MISSING") "blocked") with false.
  cbv iota. unfold alert, emit. now rewrite call_run, logged_logged.
Qed.

Lemma getClient_missing (host : Host) (w : World) :
  API_KEY host (log w) = None ∨ API_KEY host (log w) = Some "" →
  getClient host w = (Throw (mkError "Error" (JStr "API_KEY_MISSING")), w).
Proof. unfold getClient. now intros [-> | ->]. Qed.

(** X7 With no key in the environment, an expansion and an image generation
    send nothing to the remote model; the React state and the asset cache end
    as they were, and the learner is shown the connection-error alert, not the
    key-selection dialog. *)
Theorem missing_key_shows_connection_alert (host : Host) (w w1 : World)
    (cat : Category.t) (item : Item.t) (b : bool) :
  isExpanding (ui w) = false →
  isGeneratingImg (ui w) = false →
  selectedCategory (state (ui w)) = Some cat →
  item_at (Category.items cat) (learningIndex (ui w)) = Some item →
  ensureApiKey host w = (Normal b, w1) →
  API_KEY host (log w1) = None ∨ API_KEY host (log w1) = Some "" →
  handleExpand host (ui w) w
  = (Normal tt, logged (mkWorld (ui w) (imageStorage w) (clock w) (log w1))
                  [EvConsole "error" "Magic Error:"; connection_alert])
  ∧ handleImageGen host (ui w) w
    = (Normal tt, logged (mkWorld (ui w) (imageStorage w) (clock w) (log w1))
                    [EvConsole "error" "Magic Error:"; connection_alert]).
Proof.
  intros Hfe Hfg Hsel Hitem Hkey Hnokey.
  destruct (ensureApiKey_keeps host _ _ _ Hkey) as (Hu1 & Hs1 & Hc1).
  split.
  - assert (expandCategoryItems host (Category.name cat) (Category.items cat) (expanding w1)
            = (Throw (mkError "Error" (JStr "API_KEY_MISSING")), expanding w1)) as Hrun.
    { unfold expandCategoryItems. unfold bind at 1. now rewrite getClient_missing. }
    rewrite (handleExpand_throw host (ui w) w w1 _ cat b _ Hfe Hsel Hkey Hrun).
    rewrite handleApiError_missing_key. unfold expanding, logged. simpl.
    rewrite Hu1, Hs1, Hc1. simpl. now rewrite ui_eta_expanding.
  - assert (generateItemImage host (Item.name item) (Category.name cat) (generating w1)
            = (Throw (mkError "Error" (JStr "API_KEY_MISSING")), generating w1)) as Hrun.
    { unfold generateItemImage. unfold bind at 1. now rewrite getClient_missing. }
    rewrite (handleImageGen_throw host (ui w) w w1 _ cat item b _ Hfg Hsel Hitem Hkey Hrun).
    rewrite handleApiError_missing_key. unfold generating, logged. simpl.
    rewrite Hu1, Hs1, Hc1. simpl. now rewrite ui_eta_generating.
Qed.

Lemma missing_key_shows_connection_alert_witness :
  handleExpand Ex2.host_keyless (ui Ex.world0) Ex.world0
  = (Normal tt, logged (mkWorld (ui Ex.world0) (imageStorage Ex.world0) (clock Ex.world0)
                          (log Ex.world0))
                  [EvConsole "error" "Magic Error:"; connection_alert])
  ∧ handleImageGen Ex2.host_keyless (ui Ex.world0) Ex.world0
    = (Normal tt, logged (mkWorld (ui Ex.world0) (imageStorage Ex.world0) (clock Ex.world0)
                            (log Ex.world0))
                    [EvConsole "error" "Magic Error:"; connection_alert]).
Proof.
  apply (missing_key_shows_connection_alert Ex2.host_keyless Ex.world0 Ex.world0
           Ex.fruits Ex.apple true); try reflexivity. now left.
Defined.

Lemma find_merge (cats : list Category.t) (sel : Category.t) (newItems : list Item.t) :
  List.find (fun cat => bool_decide (Some (Category.id cat) = Some (Category.id sel)))
    (merge cats sel newItems)
  = (fun c => Category.with_items c (Category.items c ++ newItems))
      <$> List.find (fun cat => bool_decide (Category.id cat = Category.id sel)) cats.
Proof.
  induction cats as [|c cats IH]; [reflexivity|]. simpl.
  destruct (decide (Category.id c = Category.id sel)) as [E|E].
  - simpl. rewrite !bool_decide_eq_true_2; [reflexivity | assumption | now f_equal].
  - rewrite !bool_decide_eq_false_2; [exact IH | assumption | now intros [= ?]].
Qed.

(** The search of the selection in the merged catalog, when nothing is
    selected and when another category is. *)
Lemma find_none_id (cats : list Category.t) :
  List.find (fun cat => bool_decide (Some (Category.id cat) = None)) cats = None.
Proof.
  induction cats as [|c cats IH]; [reflexivity|]. exact IH.
Qed.

Lemma find_merge_other (cats : list Category.t) (sel cur : Category.t)
    (newItems : list Item.t) :
  Category.id cur ≠ Category.id sel →
  List.find (fun cat => bool_decide (Some (Category.id cat) = Some (Category.id cur)))
    (merge cats sel newItems)
  = List.find (fun cat => bool_decide (Category.id cat = Category.id cur)) cats.
Proof.
  intros Hid. induction cats as [|c cats IH]; [reflexivity|]. simpl.
  destruct (decide (Category.id c = Category.id sel)) as [E|E].
  - simpl. rewrite !bool_decide_eq_false_2; [exact IH | congruence | intros [= ?]; congruence].
  - destruct (decide (Category.id c = Category.id cur)) as [E'|E'].
    + rewrite !bool_decide_eq_true_2; [reflexivity | assumption | now f_equal].
    + rewrite !bool_decide_eq_false_2; [exact IH | assumption | now intros [= ?]].
Qed.

Lemma merge_stray (cats : list Category.t) (sel : Category.t) (newItems : list Item.t) :
  List.find (fun cat => bool_decide (Category.id cat = Category.id sel)) cats = None →
  merge cats sel newItems = cats.
Proof.
  induction cats as [|c cats IH]; [reflexivity|]. simpl.
  destruct (decide (Category.id c = Category.id sel)) as [E|E].
  - now rewrite bool_decide_eq_true_2.
  - rewrite bool_decide_eq_false_2 by assumption. intros H. now rewrite (IH H).
Qed.

(** X8 An expansion closes over the render [snap] in which its button was
    pressed and refreshes the selection it finds in the world [w] when it
    completes.  After an expansion that returned a non-empty batch, the
    selection is the first category of the merged catalog that carries the
    identifier selected in [w], and stays as it is in [w] when there is none:
    if the learner is still on the expanded category it is the render's
    category with the batch appended, so that the new items can be reached by
    NEXT; if the learner has moved to a category with another identifier,
    the selection stays on that category, without the batch, as the render's
    catalog had it.  View, game, score and index are those of [w]. *)
Theorem expand_refreshes_selection (host : Host) (snap : UI) (w w1 w2 : World)
    (sel : Category.t) (b : bool) (newItems : list Item.t) :
  isExpanding snap = false →
  selectedCategory (state snap) = Some sel →
  ensureApiKey host w = (Normal b, w1) →
  expandCategoryItems host (Category.name sel) (Category.items sel) (expanding w1)
    = (Normal newItems, w2) →
  newItems ≠ [] →
  let w' := snd (handleExpand host snap w) in
  let first_with (id : string) :=
    List.find (fun c => bool_decide (Category.id c = id)) (categories snap) in
  (selectedCategory (state (ui w)) = None → selectedCategory (state (ui w')) = None)
  ∧ (∀ cur, selectedCategory (state (ui w)) = Some cur →
            Category.id cur = Category.id sel →
            selectedCategory (state (ui w'))
            = match first_with (Category.id sel) with
              | Some c => Some (Category.with_items c (Category.items c ++ newItems))
              | None => Some cur
              end)
  ∧ (∀ cur, selectedCategory (state (ui w)) = Some cur →
            Category.id cur ≠ Category.id sel →
            selectedCategory (state (ui w'))
            = match first_with (Category.id cur) with
              | Some c => Some c
              | None => Some cur
              end)
  ∧ (first_with (Category.id sel) = None → categories (ui w') = categories snap)
  ∧ view (state (ui w')) = view (state (ui w))
  ∧ selectedGame (state (ui w')) = selectedGame (state (ui w))
  ∧ score (state (ui w')) = score (state (ui w))
  ∧ learningIndex (ui w') = learningIndex (ui w).
Proof.
  intros Hfree Hsel Hkey Hrun Hne w' first_with. subst w'.
  destruct newItems as [|x xs]; [contradiction|].
  rewrite (handleExpand_batch host snap w w1 w2 sel b x xs Hfree Hsel Hkey Hrun).
  destruct (expandCategoryItems_keeps_ui host _ _ _ _ _ Hrun) as (Hu2 & _).
  destruct (ensureApiKey_keeps host _ _ _ Hkey) as (Hu1 & _).
  assert (ui w2 = mkUI (categories (ui w)) (state (ui w)) (learningIndex (ui w))
                    (showPersian (ui w)) (isSpeaking (ui w)) true
                    (isGeneratingImg (ui w)) (itemImage (ui w))) as Hui.
  { rewrite Hu2. unfold expanding. simpl. now rewrite Hu1. }
  cbn [snd setIsExpanding setState setCategories modify_ui ui]. rewrite Hui.
  cbn [categories state learningIndex showPersian isSpeaking isExpanding
       isGeneratingImg itemImage with_selectedCategory view selectedCategory
       selectedGame score].
  unfold refreshed.
  split; [intros ->; cbn [fmap option_fmap option_map];
          now rewrite find_none_id|].
  split.
  { intros cur -> Hid. cbn [fmap option_fmap option_map]. rewrite Hid.
    rewrite find_merge. unfold first_with. now destruct (List.find _ _). }
  split.
  { intros cur -> Hid. cbn [fmap option_fmap option_map].
    rewrite (find_merge_other _ _ _ _ Hid). unfold first_with.
    now destruct (List.find _ _). }
  split; [intros Hnone; now apply merge_stray|].
  repeat split.
Qed.

Lemma expand_refreshes_selection_witness :
  selectedCategory (state (ui Ex2.fruits_done)) = Some Ex.animals
  ∧ selectedCategory (state (ui (snd (handleExpand Ex.host_ok Ex.ui0 Ex.world0))))
    = Some (Category.with_items Ex.fruits [Ex.apple; Ex.banana; Ex.cherry; Ex.date])
  ∧ view (state (ui Ex2.fruits_done)) = view (state (ui Ex2.on_animals))
  ∧ learningIndex (ui Ex2.fruits_done) = learningIndex (ui Ex2.on_animals).
Proof.
  destruct (expand_refreshes_selection Ex.host_ok Ex.ui0 Ex2.on_animals Ex2.on_animals
              (snd (Ex.expand_fruits Ex.host_ok (expanding Ex2.on_animals)))
              Ex.fruits true [Ex.cherry; Ex.date]
              eq_refl eq_refl eq_refl eq_refl ltac:(discriminate))
    as (_ & _ & Hother & _ & Hview & _ & _ & Hidx).
  destruct (expand_refreshes_selection Ex.host_ok Ex.ui0 Ex.world0 Ex.world0
              (snd (Ex.expand_fruits Ex.host_ok (expanding Ex.world0)))
              Ex.fruits true [Ex.cherry; Ex.date]
              eq_refl eq_refl eq_refl eq_refl ltac:(discriminate))
    as (_ & Hsame & _).
  split; [exact (Hother Ex.animals eq_refl ltac:(discriminate))|].
  split; [exact (Hsame Ex.fruits eq_refl eq_refl)|].
  split; [exact Hview | exact Hidx].
Defined.

(** ** Images: the cache *)

Lemma image_key_inj (i j : Item.t) : image_key i = image_key j → Item.id i = Item.id j.
Proof. unfold image_key. intros H. now apply (inj (String.app "img_v5_")) in H. Qed.

(** X9 An image generation closes over the render [snap] in which its
    button was pressed.  When the adapter returns an image, it is stored
    under the key [img_v5_] followed by the identifier of the render's item,
    and displayed, whatever item the learner is on by then; the entries of
    items with another identifier, the catalog, the selection and the index
    are as the handler found them.  When the display effect next runs, it
    shows the new image if the item then displayed has the identifier of the
    render's item, and otherwise what the cache held for that item. *)
Theorem image_stored_then_displayed (host : Host) (snap : UI) (w w1 w2 : World)
    (cat : Category.t) (item : Item.t) (b : bool) (url : string) :
  isGeneratingImg snap = false →
  selectedCategory (state snap) = Some cat →
  item_at (Category.items cat) (learningIndex snap) = Some item →
  ensureApiKey host w = (Normal b, w1) →
  generateItemImage host (Item.name item) (Category.name cat) (generating w1)
    = (Normal (Some url), w2) →
  let w' := snd (handleImageGen host snap w) in
  imageStorage w' = <["img_v5_" +:+ Item.id item := url]> (imageStorage w)
  ∧ itemImage (ui w') = Some url
  ∧ (∀ j, Item.id j ≠ Item.id item →
          imageStorage w' !! image_key j = imageStorage w !! image_key j)
  ∧ categories (ui w') = categories (ui w)
  ∧ state (ui w') = state (ui w)
  ∧ learningIndex (ui w') = learningIndex (ui w)
  ∧ (∀ cat' shown,
       view (state (ui w)) = learning_detail →
       selectedCategory (state (ui w)) = Some cat' →
       item_at (Category.items cat') (learningIndex (ui w)) = Some shown →
       itemImage (ui (snd (from_render loadImage w')))
       = if decide (Item.id shown = Item.id item) then Some url
         else imageStorage w !! image_key shown).
Proof.
  intros Hfree Hcat Hitem Hkey Hrun w'. subst w'.
  rewrite (handleImageGen_some host snap w w1 w2 cat item b url Hfree Hcat Hitem Hkey Hrun).
  destruct (generateItemImage_keeps_ui host _ _ _ _ _ Hrun) as (Hu2 & Hs2 & _).
  destruct (ensureApiKey_keeps host _ _ _ Hkey) as (Hu1 & Hs1 & _).
  unfold from_render, loadImage.
  cbn [snd setIsGeneratingImg setItemImage imageStorage_set modify_ui ui imageStorage
       categories state learningIndex itemImage].
  rewrite Hu2, Hs2. unfold generating.
  cbn [snd setIsGeneratingImg modify_ui ui imageStorage categories state learningIndex].
  rewrite Hu1, Hs1.
  split; [reflexivity|]. split; [reflexivity|].
  split.
  { intros j Hj. apply lookup_insert_ne. intros E. apply image_key_inj in E. congruence. }
  do 3 (split; [reflexivity|]).
  intros cat' shown Hview Hcat' Hshown. rewrite Hview, Hcat', Hshown.
  unfold bind, imageStorage_get, setItemImage, modify_ui. simpl.
  destruct (decide (Item.id shown = Item.id item)) as [E|E].
  - unfold image_key. rewrite E. apply lookup_insert_eq.
  - apply lookup_insert_ne. intros E'. apply image_key_inj in E'. congruence.
Qed.

Lemma image_stored_then_displayed_witness :
  (let w' := snd (handleImageGen Ex.host_ok Ex.ui0 Ex.world0) in
   imageStorage w' = {[ "img_v5_apple" := "data:image/png;base64,iVBORw" ]}
   ∧ itemImage (ui w') = Some "data:image/png;base64,iVBORw"
   ∧ itemImage (ui (snd (from_render loadImage w'))) = Some "data:image/png;base64,iVBORw")
  ∧ (let w' := snd (handleImageGen Ex.host_ok Ex.ui0 Ex2.world_banana) in
     learningIndex (ui w') = 1%Z
     ∧ itemImage (ui w') = Some "data:image/png;base64,iVBORw"
     ∧ itemImage (ui (snd (from_render loadImage w'))) = None).
Proof.
  destruct (image_stored_then_displayed Ex.host_ok Ex.ui0 Ex.world0 Ex.world0
              (snd (generateItemImage Ex.host_ok (JStr "Apple") "Fruits"
                      (generating Ex.world0)))
              Ex.fruits Ex.apple true "data:image/png;base64,iVBORw"
              eq_refl eq_refl eq_refl eq_refl eq_refl)
    as (Hstore & Himg & _ & _ & _ & _ & Hload).
  destruct (image_stored_then_displayed Ex.host_ok Ex.ui0 Ex2.world_banana Ex2.world_banana
              (snd (generateItemImage Ex.host_ok (JStr "Apple") "Fruits"
                      (generating Ex2.world_banana)))
              Ex.fruits Ex.apple true "data:image/png;base64,iVBORw"
              eq_refl eq_refl eq_refl eq_refl eq_refl)
    as (_ & Himg' & _ & _ & _ & Hidx' & Hload').
  split.
  - split; [exact Hstore|]. split; [exact Himg|].
    exact (Hload Ex.fruits Ex.apple eq_refl eq_refl eq_refl).
  - split; [exact Hidx'|]. split; [exact Himg'|].
    exact (Hload' Ex.fruits Ex.banana eq_refl eq_refl eq_refl).
Defined.



Lemma first_image_spec (parts : list Part) (u : string) :
  first_image parts = Some u →
  ∃ pre p post d, parts = (pre ++ p :: post)%list
                  ∧ Forall (fun q => inlineData q = None) pre
                  ∧ inlineData p = Some d
                  ∧ u = "data:image/png;base64," +:+ default "undefined" d.
Proof.
  induction parts as [|q parts IH]; simpl; [discriminate|].
  destruct (inlineData q) as [d|] eqn:E.
  - intros [= <-]. now exists [], q, parts, d.
  - intros H. destruct (IH H) as (pre & p & post & d & -> & Hpre & Hp & Hu).
    exists (q :: pre), p, post, d. repeat split; try assumption. now constructor.
Qed.

(** X11 An image that [generateItemImage] returns is a PNG data URL built
    from the first part of the first candidate that carries inline data; the
    parts before it, which carry none, are passed over. *)
Theorem image_url_format (host : Host) (name : JSValue) (c : string) (w w' : World)
    (u : string) :
  generateItemImage host name c w = (Normal (Some u), w') →
  ∃ r parts pre p post d,
    generateContent host (log w) (image_request name) = Normal r
    ∧ first_parts r = Some parts
    ∧ parts = (pre ++ p :: post)%list
    ∧ Forall (fun q => inlineData q = None) pre
    ∧ inlineData p = Some d
    ∧ u = "data:image/png;base64," +:+ default "undefined" d
    ∧ Str.startsWith "data:image/png;base64," u = true.
Proof.
  unfold generateItemImage, bind, getClient, ai_models_generateContent.
  destruct (API_KEY host (log w)) as [k|]; [|discriminate].
  destruct (String.eqb k ""); [discriminate|].
  rewrite call_run.
  destruct (generateContent host (log w) (image_request name)) as [r|e]; [|discriminate].
  unfold ret, image_url. intros [= Hu _].
  destruct (first_parts r) as [parts|] eqn:Hfp; [|discriminate].
  destruct (first_image_spec parts u Hu) as (pre & p & post & d & Hparts & Hpre & Hp & ->).
  exists r, parts, pre, p, post, d. repeat split; assumption.
Qed.

Lemma image_url_format_witness :
  ∃ r parts pre p post d,
    generateContent Ex.host_ok (log Ex.world0) (image_request (JStr "Apple")) = Normal r
    ∧ first_parts r = Some parts
    ∧ parts = (pre ++ p :: post)%list
    ∧ Forall (fun q => inlineData q = None) pre
    ∧ inlineData p = Some d
    ∧ "data:image/png;base64,iVBORw" = "data:image/png;base64," +:+ default "undefined" d
    ∧ Str.startsWith "data:image/png;base64," "data:image/png;base64,iVBORw" = true.
Proof.
  apply (image_url_format Ex.host_ok (JStr "Apple") "Fruits" Ex.world0
           (snd (generateItemImage Ex.host_ok (JStr "Apple") "Fruits" Ex.world0))).
  reflexivity.
Defined.

(** X12 The cache keys of the three revisions ([img_v5_], [img_v9_] and
    [kids_joy_img_] followed by the identifier of the item) never coincide,
    whatever the items: an image stored by one revision is never found by the
    lookup of another.  Within each revision two items have the same key
    exactly when they have the same identifier, so that an image is never
    found under the key of an item with another identifier. *)
Theorem cache_keys_isolated (i j : Item.t) (u : string) (m : gmap string string) :
  <[image_key i := u]> m !! V9.image_key j = m !! V9.image_key j
  ∧ <[image_key i := u]> m !! V4.image_key j = m !! V4.image_key j
  ∧ <[V4.image_key i := u]> m !! V9.image_key j = m !! V9.image_key j
  ∧ <[V4.image_key i := u]> m !! image_key j = m !! image_key j
  ∧ <[V9.image_key i := u]> m !! image_key j = m !! image_key j
  ∧ <[V9.image_key i := u]> m !! V4.image_key j = m !! V4.image_key j
  ∧ (image_key i = image_key j ↔ Item.id i = Item.id j)
  ∧ (V9.image_key i = V9.image_key j ↔ Item.id i = Item.id j)
  ∧ (V4.image_key i = V4.image_key j ↔ Item.id i = Item.id j)
  ∧ (Item.id i ≠ Item.id j →
     <[image_key i := u]> m !! image_key j = m !! image_key j
     ∧ <[V9.image_key i := u]> m !! V9.image_key j = m !! V9.image_key j
     ∧ <[V4.image_key i := u]> m !! V4.image_key j = m !! V4.image_key j)
  ∧ (Item.id i = Item.id j →
     <[image_key i := u]> m !! image_key j = Some u
     ∧ <[V9.image_key i := u]> m !! V9.image_key j = Some u
     ∧ <[V4.image_key i := u]> m !! V4.image_key j = Some u).
Proof.
  assert (image_key i = image_key j ↔ Item.id i = Item.id j) as H5.
  { unfold image_key. split; [|now intros ->].
    intros E. now apply (inj (String.app "img_v5_")) in E. }
  assert (V9.image_key i = V9.image_key j ↔ Item.id i = Item.id j) as H9.
  { unfold V9.image_key. split; [|now intros ->].
    intros E. now apply (inj (String.app "img_v9_")) in E. }
  assert (V4.image_key i = V4.image_key j ↔ Item.id i = Item.id j) as H4.
  { unfold V4.image_key. split; [|now intros ->].
    intros E. now apply (inj (String.app "kids_joy_img_")) in E. }
  do 6 (split; [apply lookup_insert_ne; unfold image_key, V9.image_key, V4.image_key;
                simpl; discriminate|]).
  split; [exact H5|]. split; [exact H9|]. split; [exact H4|]. split.
  - intros Hne. repeat split; apply lookup_insert_ne; intros E;
      [apply H5 in E | apply H9 in E | apply H4 in E]; contradiction.
  - intros He.
    apply H5 in He as E5. apply H9 in He as E9. apply H4 in He as E4.
    rewrite E5, E9, E4. repeat split; apply lookup_insert_eq.
Qed.

(** ** Speech *)

(** X13 [handleSpeech] never rejects and never shows the learner anything:
    whatever the collaborators answer or throw, it completes normally, with
    no alert box and no key-selection dialog, and once it has completed the
    React state, the asset cache and the clock are as they were before the
    call. *)
Theorem speech_is_silent (host : Host) (text : string) (w : World) :
  fst (handleSpeech host (ui w) text w) = Normal tt
  ∧ shown (log (snd (handleSpeech host (ui w) text w))) = shown (log w)
  ∧ imageStorage (snd (handleSpeech host (ui w) text w)) = imageStorage w
  ∧ clock (snd (handleSpeech host (ui w) text w)) = clock w
  ∧ ui (snd (handleSpeech host (ui w) text w)) = ui w.
Proof.
  unfold handleSpeech. destruct (isSpeaking (ui w)) eqn:Hflag; [repeat split|].
  unfold generateSpeech, getClient, ai_models_generateContent.
  unfold try_finally, try_catch, bind, call, console, emit, call, ret, setIsSpeaking, modify_ui.
  repeat (cbn [negb ui log imageStorage clock fst snd];
          match goal with
          | |- context [API_KEY host ?l] => destruct (API_KEY host l)
          | |- context [String.eqb ?a ""] => destruct (String.eqb a "")
          | |- context [generateContent host ?l ?r] => destruct (generateContent host l r)
          | |- context [speech_audio ?r] => destruct (speech_audio r)
          | |- context [playTTSSound host ?l ?a ?t] => destruct (playTTSSound host l a t)
          | |- context [playLocalSpeech host ?l ?t] => destruct (playLocalSpeech host l t)
          end).
  all: cbn [negb ui log imageStorage clock fst snd categories state learningIndex showPersian
            isSpeaking isExpanding isGeneratingImg itemImage].
  all: rewrite (ui_eta_speaking (ui w) Hflag).
  all: repeat match goal with a : unit |- _ => destruct a end.
  all: unfold shown; rewrite ?List.filter_app; simpl; rewrite ?app_nil_r; repeat split.
Qed.

(** ** When a handler rejects *)




(** Inside AI Studio a handler can reject before its [try]: with no key
    selected and a dialog that rejects, the expansion rejects before it has
    set its flag or sent anything. *)
Example expand_rejects_in_studio :
  handleExpand Ex2.host_studio Ex.ui0 Ex.world0
  = (Throw (mkError "Error" (JStr "dismissed")),
     logged Ex.world0 [EvHasSelectedApiKey; EvOpenSelectKey]).
Proof. reflexivity. Qed.



(** ** The error handlers of the three revisions *)





(** X18 The error handler of the second revision can leave the learner
    with nothing: outside AI Studio, an error whose message mentions
    [Requested entity was not found], [API Key], [401] or [403] is written to
    the console and shown nowhere.  Any other error whose message is a string
    gets the alert box. *)
Theorem error_handler_v9_can_stay_silent (host : Host) (e : Error) (w : World) :
  let msg := message_or_empty e in
  let auth := mentions msg "Requested entity was not found"
              || (mentions msg "API Key" || mentions msg "401" || mentions msg "403") in
  searchable msg = true →
  (aistudio host = None → auth = true →
     V9.handleApiError host e w = (Normal tt, logged w [EvConsole "error" "Magic Tool Error:"]))
  ∧ (auth = false →
     V9.handleApiError host e w
     = (Normal tt, logged w [EvConsole "error" "Magic Tool Error:";
                             EvAlert "Magic is busy! Please check your internet or your Paid API Key."])).
Proof.
  intros msg auth Hs. subst auth.
  set (said := logged w [EvConsole "error" "Magic Tool Error:"]).
  assert (or_else (or_else (msg_includes host "msg.includes" msg "API Key")
                     (msg_includes host "msg.includes" msg "401"))
            (msg_includes host "msg.includes" msg "403") said
          = (Normal (mentions msg "API Key" || mentions msg "401" || mentions msg "403"),
             said)) as Htest.
  { rewrite (or_else_run host "msg.includes" e _ "403"
               (mentions msg "API Key" || mentions msg "401"));
      [now fold msg; rewrite Hs|].
    apply or_else_run, msg_includes_run. }
  assert (V9.handleApiError host e w
          = (if mentions msg "Requested entity was not found" then
               match aistudio host with
               | Some a => aistudio_openSelectKey a
               | None => ret tt
               end
             else if mentions msg "API Key" || mentions msg "401" || mentions msg "403" then
               match aistudio host with
               | Some a => aistudio_openSelectKey a
               | None => ret tt
               end
             else alert "Magic is busy! Please check your internet or your Paid API Key.")
              said) as ->.
  { unfold V9.handleApiError, console, emit. unfold bind at 1. rewrite call_run.
    fold said. unfold bind at 1. rewrite msg_includes_run. fold msg. rewrite Hs.
    destruct (mentions msg "Requested entity was not found"); [reflexivity|].
    unfold bind at 1. now rewrite Htest. }
  split.
  - intros Hout Hauth. rewrite Hout.
    destruct (mentions msg "Requested entity was not found"); [reflexivity|].
    simpl in Hauth. now rewrite Hauth.
  - intros Hauth. apply orb_false_elim in Hauth as (-> & ->). unfold alert, emit.
    subst said. now rewrite call_run, logged_logged.
Qed.

Lemma error_handler_v9_can_stay_silent_witness :
  V9.handleApiError Ex.host_ok (mkError "Error" (JStr "403 Forbidden")) Ex.world0
  = (Normal tt, logged Ex.world0 [EvConsole "error" "Magic Tool Error:"])
  ∧ V9.handleApiError Ex.host_ok (mkError "Error" (JStr "fetch failed")) Ex.world0
    = (Normal tt, logged Ex.world0
                    [EvConsole "error" "Magic Tool Error:";
                     EvAlert "Magic is busy! Please check your internet or your Paid API Key."]).
Proof.
  split.
  - apply (proj1 (error_handler_v9_can_stay_silent Ex.host_ok
                    (mkError "Error" (JStr "403 Forbidden")) Ex.world0 eq_refl));
      reflexivity.
  - apply (proj2 (error_handler_v9_can_stay_silent Ex.host_ok
                    (mkError "Error" (JStr "fetch failed")) Ex.world0 eq_refl));
      reflexivity.
Defined.

(** ** The second revision: speech without a key, the overlay *)

(** X19 In the second revision a [speak] with no key in the environment
    does not try the remote model at all: nothing is sent, the local fallback
    is called once with the text, and the handler completes normally with the
    React state and the cache as they were. *)
Theorem speech_v9_without_key (host : Host) (text : string) (w : World) :
  isSpeaking (ui w) = false →
  API_KEY host (log w) = None ∨ API_KEY host (log w) = Some "" →
  V9.handleSpeech host (ui w) text w
  = (Normal tt, logged w [EvPlayLocalSpeech text]).
Proof.
  intros Hfree Hkey. unfold V9.handleSpeech. rewrite Hfree.
  unfold try_finally, try_catch, bind, V9.key_set, call, ret, setIsSpeaking, modify_ui.
  cbn [ui log imageStorage clock fst snd].
  assert (match API_KEY host (log w) with
          | Some k => negb (String.eqb k "")
          | None => false
          end = false) as -> by (destruct Hkey as [-> | ->]; reflexivity).
  cbn [negb ui log imageStorage clock fst snd].
  destruct (playLocalSpeech host (log w) text) as [[]|e];
    cbn [ui log imageStorage clock fst snd categories state learningIndex showPersian
         isSpeaking isExpanding isGeneratingImg itemImage];
    unfold logged; now rewrite (ui_eta_speaking (ui w) Hfree).
Qed.

Lemma speech_v9_without_key_witness :
  V9.handleSpeech Ex2.host_keyless (ui Ex.world0) "Apple" Ex.world0
  = (Normal tt, logged Ex.world0 [EvPlayLocalSpeech "Apple"]).
Proof.
  apply (speech_v9_without_key Ex2.host_keyless "Apple" Ex.world0); [reflexivity | now left].
Defined.

(** The first revision, for contrast, asks the adapter, which throws. *)
Example speech_v5_without_key :
  handleSpeech Ex2.host_keyless Ex.ui0 "Apple" Ex.world0
  = (Normal tt, logged Ex.world0 [EvConsole "warn" "TTS Fallback"; EvPlayLocalSpeech "Apple"]).
Proof. reflexivity. Qed.

(** X20 A topic picked in the overlay of the second revision keeps the
    index of the category left behind.  When the picked category has no item
    at that index nothing is displayed and the image button does nothing,
    until one press of NEXT brings the index back to 0. *)
Theorem overlay_pick_keeps_index (host : Host) (w : World) (c : Category.t) :
  let w1 := snd (V9.pickFromOverlay (ui w) c w) in
  selectedCategory (state (ui w1)) = Some c
  ∧ learningIndex (ui w1) = learningIndex (ui w)
  ∧ ((Z.of_nat (length (Category.items c)) ≤ learningIndex (ui w))%Z →
     item_at (Category.items c) (learningIndex (ui w1)) = None
     ∧ from_render (V9.handleImageGen host) w1 = (Normal tt, w1)
     ∧ from_render V9.loadImage w1 = (Normal tt, w1)
     ∧ learningIndex (ui (snd (from_render nextItem w1))) = 0%Z).
Proof.
  intros w1.
  assert (selectedCategory (state (ui w1)) = Some c) as Hsel by reflexivity.
  assert (learningIndex (ui w1) = learningIndex (ui w)) as Hidx by reflexivity.
  assert (view (state (ui w1)) = learning_detail) as Hview by reflexivity.
  clearbody w1. split; [exact Hsel|]. split; [exact Hidx|].
  intros Hout.
  assert (item_at (Category.items c) (learningIndex (ui w1)) = None) as Hnone.
  { rewrite Hidx. unfold item_at. destruct (Z.ltb_spec (learningIndex (ui w)) 0); [reflexivity|].
    apply lookup_ge_None. lia. }
  split; [exact Hnone|]. split; [|split].
  - unfold from_render, V9.handleImageGen. rewrite Hsel. simpl. rewrite Hnone.
    now destruct (isGeneratingImg (ui w1)).
  - unfold from_render, V9.loadImage. now rewrite Hview, Hsel, Hnone.
  - unfold from_render. rewrite nextItem_index. unfold items_length. rewrite Hsel, Hidx.
    destruct (Z.ltb_spec (learningIndex (ui w)) (Z.of_nat (length (Category.items c)) - 1));
      [lia | reflexivity].
Qed.

Lemma overlay_pick_keeps_index_witness :
  let w1 := snd (V9.pickFromOverlay (ui Ex2.world_banana) Ex.animals Ex2.world_banana) in
  item_at (Category.items Ex.animals) (learningIndex (ui w1)) = None
  ∧ from_render (V9.handleImageGen Ex.host_ok) w1 = (Normal tt, w1)
  ∧ from_render V9.loadImage w1 = (Normal tt, w1)
  ∧ learningIndex (ui (snd (from_render nextItem w1))) = 0%Z.
Proof.
  apply (proj2 (proj2 (overlay_pick_keeps_index Ex.host_ok Ex2.world_banana Ex.animals))).
  simpl. lia.
Defined.

(** ** The earlier revision of the adapters *)





(** ** The stored catalog, written and read back *)

Section RoundTrip.

Import JSON Stringify.

Local Abbreviation len := String.length.

Let member_text : string * JSValue -> option string :=
  fun m => t ← stringify (snd m); Some (quoted (fst m) +:+ ":" +:+ t).

Let msize : string * JSValue -> nat := fun m => size (snd m).

Lemma append_assoc (a b c : string) : (a +:+ b) +:+ c = a +:+ (b +:+ c).
Proof.
  induction a as [|x a IH]; [reflexivity|].
  change (String x ((a +:+ b) +:+ c) = String x (a +:+ (b +:+ c))). now f_equal.
Qed.

Lemma append_String (c : ascii) (a b : string) :
  String c a +:+ b = String c (a +:+ b).
Proof. reflexivity. Qed.

Lemma append_nil (b : string) : "" +:+ b = b.
Proof. reflexivity. Qed.

Lemma append_empty (a : string) : a +:+ "" = a.
Proof.
  induction a as [|x a IH]; [reflexivity|].
  change (String x (a +:+ "") = String x a). now f_equal.
Qed.

Lemma quote_char_parse (c : ascii) (t : string) :
  string_body (quote_char c +:+ t)
  = match string_body t with
    | Some (x, k) => Some (String c x, k)
    | None => None
    end.
Proof.
  destruct c as [[] [] [] [] [] [] [] []];
    match goal with
    | |- context [quote_char ?c] =>
        let q := eval vm_compute in (quote_char c) in change (quote_char c) with q
    end;
    rewrite ?append_String, ?append_nil; simpl;
    destruct (string_body t) as [[x k]|]; reflexivity.
Qed.

Lemma quote_body_parse (s rest : string) :
  string_body (quote_body s +:+ String quote rest) = Some (s, rest).
Proof.
  induction s as [|c s IH]; [reflexivity|].
  cbn [quote_body]. now rewrite append_assoc, quote_char_parse, IH.
Qed.

Lemma quoted_app (k rest : string) :
  quoted k +:+ rest = String quote (quote_body k +:+ String quote rest).
Proof. unfold quoted. rewrite ?append_String, ?append_nil. now rewrite append_assoc. Qed.

Lemma join_two {A} (f : A -> option string) (x y : A) (r : list A) :
  join f (x :: y :: r)
  = (t ← f x; ts ← join f (y :: r); Some (t +:+ "," +:+ ts)).
Proof. reflexivity. Qed.

Lemma stringify_JArr (l : list JSValue) :
  stringify (JArr l) = (ts ← join stringify l; Some ("[" +:+ ts +:+ "]")).
Proof. reflexivity. Qed.

Lemma stringify_JObj (ms : list (string * JSValue)) :
  stringify (JObj ms)
  = if plain_names (map fst ms)
    then ts ← join member_text ms; Some ("{" +:+ ts +:+ "}")
    else None.
Proof. reflexivity. Qed.

Lemma stringify_opens (v : JSValue) (t : string) : stringify v = Some t → opens t.
Proof.
  destruct v as [| |b|n|s|l|ms].
  - discriminate.
  - intros [= <-]. now compute.
  - intros [= <-]. destruct b; now compute.
  - discriminate.
  - intros [= <-]. now compute.
  - rewrite stringify_JArr. destruct (join stringify l); [|discriminate].
    intros [= <-]. now compute.
  - rewrite stringify_JObj. destruct (plain_names _); [|discriminate].
    destruct (join member_text ms); [|discriminate].
    intros [= <-]. now compute.
Qed.

Lemma opens_app (t rest : string) : opens t → opens (t +:+ rest).
Proof. destruct t; [intros []|exact id]. Qed.

Lemma join_opens {A} (f : A -> option string) (x : A) (l : list A) (ts : string) :
  (∀ t, f x = Some t → opens t) → join f (x :: l) = Some ts → opens ts.
Proof.
  intros Hf. destruct l as [|y r]; [apply Hf|].
  rewrite join_two. destruct (f x) as [t|] eqn:Hx; [|discriminate].
  cbn [mbind option_bind]. destruct (join f (y :: r)); [|discriminate].
  intros [= <-]. now apply opens_app, Hf.
Qed.

Lemma member_text_opens (m : string * JSValue) (t : string) :
  member_text m = Some t → opens t.
Proof.
  unfold member_text. destruct (stringify (snd m)); [|discriminate].
  intros [= <-]. now compute.
Qed.

Lemma opens_skip (t : string) : opens t → skip_ws t = t.
Proof. destruct t as [|c r]; [intros []|]. intros (H & _). simpl. now rewrite H. Qed.

Lemma opens_not_closed (t : string) :
  opens t → starts "]" (skip_ws t) = None ∧ starts "}" (skip_ws t) = None.
Proof.
  intros H. rewrite (opens_skip _ H). destruct t as [|c r]; [destruct H|].
  destruct H as (_ & H1 & H2). simpl. now rewrite H1, H2.
Qed.

Lemma value_quote (f : nat) (r : string) :
  value (S f) (String quote r)
  = match string_body r with Some (str, k) => Some (JStr str, k) | None => None end.
Proof. rewrite value_S. simpl. now destruct (string_body r) as [[]|]. Qed.

Lemma value_bracket (f : nat) (r : string) :
  value (S f) (String "[" r)
  = match starts "]" (skip_ws r) with
    | Some k => Some (JArr [], k)
    | None => elements f r []
    end.
Proof. rewrite value_S. reflexivity. Qed.

Lemma value_brace (f : nat) (r : string) :
  value (S f) (String "{" r)
  = match starts "}" (skip_ws r) with
    | Some k => Some (JObj [], k)
    | None => members f r []
    end.
Proof. rewrite value_S. reflexivity. Qed.

(** Parsing the text of a value gives the value back and stops where the
    text stops. *)
Lemma stringify_value (f : nat) :
  (∀ v t rest, stringify v = Some t → (size v ≤ f)%nat →
     value f (t +:+ rest) = Some (v, rest))
  ∧ (∀ l ts rest acc, l ≠ [] → join stringify l = Some ts →
       (sum_sizes size l ≤ f)%nat →
       elements f (ts +:+ String "]" rest) acc = Some (JArr (rev acc ++ l), rest))
  ∧ (∀ ms ts rest acc, ms ≠ [] → join member_text ms = Some ts →
       (sum_sizes msize ms ≤ f)%nat →
       members f (ts +:+ String "}" rest) acc = Some (JObj (rev acc ++ ms), rest)).
Proof.
  induction f as [|f (IHv & IHe & IHm)].
  { repeat split.
    - intros v t rest _ H. destruct v; simpl in H; lia.
    - intros [|x l] ts rest acc Hl _ H; [done | simpl in H; lia].
    - intros [|x l] ts rest acc Hl _ H; [done | simpl in H; lia]. }
  repeat split.
  - intros v t rest Ht Hs. destruct v as [| |b|n|s|l|ms].
    + discriminate.
    + injection Ht as <-. reflexivity.
    + injection Ht as <-. destruct b; reflexivity.
    + discriminate.
    + injection Ht as <-. rewrite quoted_app, value_quote, quote_body_parse.
      reflexivity.
    + rewrite stringify_JArr in Ht.
      destruct (join stringify l) as [ts|] eqn:Hj; [|discriminate].
      injection Ht as <-. rewrite ?append_String, ?append_nil. rewrite append_assoc.
      rewrite ?append_String, ?append_nil. rewrite value_bracket.
      destruct l as [|x l]; [injection Hj as <-; reflexivity|].
      assert (opens ts) as Ho
        by (eapply join_opens; [|exact Hj]; intros ?; apply stringify_opens).
      destruct (opens_not_closed _ (opens_app _ (String "]" rest) Ho)) as (-> & _).
      change (S (sum_sizes size (x :: l)) ≤ S f)%nat in Hs.
      apply (IHe (x :: l) ts rest []); [done | exact Hj | lia].
    + rewrite stringify_JObj in Ht.
      destruct (plain_names _); [|discriminate].
      destruct (join member_text ms) as [ts|] eqn:Hj; [|discriminate].
      injection Ht as <-. rewrite ?append_String, ?append_nil. rewrite append_assoc.
      rewrite ?append_String, ?append_nil. rewrite value_brace.
      destruct ms as [|x ms]; [injection Hj as <-; reflexivity|].
      assert (opens ts) as Ho
        by (eapply join_opens; [|exact Hj]; intros ?; apply member_text_opens).
      destruct (opens_not_closed _ (opens_app _ (String "}" rest) Ho)) as (_ & ->).
      change (S (sum_sizes msize (x :: ms)) ≤ S f)%nat in Hs.
      apply (IHm (x :: ms) ts rest []); [done | exact Hj | lia].
  - intros [|x l] ts rest acc Hl Hj Hs; [done|]. rewrite elements_S.
    cbn [sum_sizes] in Hs. fold (@sum_sizes JSValue size) in Hs.
    destruct l as [|y r].
    + cbn [join] in Hj. rewrite (IHv x ts _ Hj) by (simpl in Hs; lia).
      reflexivity.
    + rewrite join_two in Hj.
      destruct (stringify x) as [tx|] eqn:Hx; [|discriminate].
      cbn [mbind option_bind] in Hj.
      destruct (join stringify (y :: r)) as [txs|] eqn:Hr; [|discriminate].
      injection Hj as <-. rewrite !append_assoc. rewrite ?append_String, ?append_nil.
      rewrite (IHv x tx _ Hx) by lia.
      change (starts "," (skip_ws (String "," ?k))) with (Some k).
      cbn iota beta.
      rewrite (IHe (y :: r) txs rest (x :: acc)); [|done|exact Hr|lia].
      simpl. now rewrite <- app_assoc.
  - intros [|[k v] ms] ts rest acc Hl Hj Hs; [done|]. rewrite members_S.
    cbn [sum_sizes] in Hs. fold (@sum_sizes (string * JSValue) msize) in Hs.
    unfold msize at 1 in Hs. cbn [snd] in Hs.
    destruct ms as [|y r].
    + cbn [join] in Hj. unfold member_text in Hj. cbn [fst snd] in Hj.
      destruct (stringify v) as [tv|] eqn:Hv; [|discriminate].
      injection Hj as <-. rewrite !append_assoc, quoted_app.
      change (starts quote (skip_ws (String quote ?z))) with (Some z).
      cbn iota beta. rewrite quote_body_parse. rewrite ?append_String, ?append_nil.
      change (starts ":" (skip_ws (String ":" ?z))) with (Some z).
      cbn iota beta. rewrite (IHv v tv _ Hv) by (simpl in Hs; lia).
      reflexivity.
    + rewrite join_two in Hj.
      change (member_text (k, v))
        with (t ← stringify v; Some (quoted k +:+ ":" +:+ t)) in Hj.
      destruct (stringify v) as [tv|] eqn:Hv; [|discriminate].
      cbn [mbind option_bind] in Hj.
      destruct (join member_text (y :: r)) as [tms|] eqn:Hr; [|discriminate].
      injection Hj as <-. rewrite !append_assoc, quoted_app.
      change (starts quote (skip_ws (String quote ?z))) with (Some z).
      cbn iota beta. rewrite quote_body_parse. rewrite ?append_String, ?append_nil.
      change (starts ":" (skip_ws (String ":" ?z))) with (Some z).
      cbn iota beta. rewrite (IHv v tv _ Hv) by lia.
      change (starts "," (skip_ws (String "," ?z))) with (Some z).
      cbn iota beta.
      rewrite (IHm (y :: r) tms rest ((k, v) :: acc)); [|done|exact Hr|lia].
      simpl. now rewrite <- app_assoc.
Qed.

Lemma stringify_document (v : JSValue) (text : string) :
  stringify v = Some text → JSON.parse text = Some v ∧ text ≠ "".
Proof.
  intros Ht. split.
  - rewrite <- (fuel_enough text (size v + (2 * len text + 2))) by lia.
    unfold document.
    destruct (stringify_value (size v + (2 * len text + 2))) as (Hv & _).
    assert (size v ≤ size v + (2 * len text + 2))%nat as Hle by lia.
    pose proof (Hv v text "" Ht Hle) as E. rewrite append_empty in E.
    now rewrite E.
  - intros ->. exact (stringify_opens _ _ Ht).
Qed.

Lemma join_is_Some {A} (f : A -> option string) (l : list A) :
  (∀ x, x ∈ l → is_Some (f x)) → is_Some (join f l).
Proof.
  induction l as [|x l IH]; intros H; [now eexists|].
  destruct l as [|y r]; [apply H; left|].
  rewrite join_two. destruct (H x) as [t ->]; [left|].
  destruct IH as [ts ->]; [intros z Hz; apply H; now right|].
  now eexists.
Qed.

Lemma item_text (i : Item.t) :
  is_item (Item_to_js i) = true → is_Some (stringify (Item_to_js i)).
Proof.
  destruct i as [id name persianName emoji color]. unfold Item_to_js. cbn [Item.id
    Item.name Item.persianName Item.emoji Item.color].
  intros H. vm_compute in H.
  destruct name; try discriminate; destruct persianName; try discriminate;
    destruct emoji; try discriminate.
  now eexists.
Qed.

Lemma category_text (c : Category.t) :
  is_category (Category_to_js c) = true → is_Some (stringify (Category_to_js c)).
Proof.
  destruct c as [id name icon color items]. unfold Category_to_js.
  cbn [Category.id Category.name Category.icon Category.color Category.items].
  intros H. apply andb_prop in H as (_ & H).
  change (forallb is_item (map Item_to_js items) = true) in H.
  assert (is_Some (stringify (JArr (map Item_to_js items)))) as [t Ht].
  { rewrite stringify_JArr.
    destruct (join_is_Some stringify (map Item_to_js items)) as [ts ->]; [|now eexists].
    intros x (i & -> & Hi)%list_elem_of_fmap. apply item_text.
    rewrite forallb_forall in H. apply H, in_map, list_elem_of_In, Hi. }
  rewrite stringify_JObj, !join_two. cbn [join]. unfold member_text. cbn [fst snd].
  rewrite Ht. now eexists.
Qed.

Lemma catalog_text (cats : list Category.t) :
  is_catalog (catalog_to_js cats) = true → is_Some (stringify (catalog_to_js cats)).
Proof.
  unfold catalog_to_js. intros H.
  change (forallb is_category (map Category_to_js cats) = true) in H.
  rewrite stringify_JArr.
  destruct (join_is_Some stringify (map Category_to_js cats)) as [ts ->]; [|now eexists].
  intros x (c & -> & Hc)%list_elem_of_fmap. apply category_text.
  rewrite forallb_forall in H. apply H, in_map, list_elem_of_In, Hc.
Qed.

End RoundTrip.

(** X22 The text that [JSON.stringify] writes for a value made of strings,
    booleans, [null], arrays and objects with distinct names that are not
    indices is never empty, and [JSON.parse] reads the same value back from
    it. *)
Theorem stringify_then_parse (v : JSValue) (text : string) :
  Stringify.stringify v = Some text →
  JSON.parse text = Some v ∧ text ≠ "".
Proof. apply stringify_document. Qed.

Lemma stringify_then_parse_witness :
  Stringify.stringify (JArr [JStr "a"; JNull; JObj [("k", JBool true)]])
  = Some (Str.dq "['a',null,{'k':true}]")
  ∧ JSON.parse (Str.dq "['a',null,{'k':true}]")
    = Some (JArr [JStr "a"; JNull; JObj [("k", JBool true)]]).
Proof.
  split; [reflexivity|].
  exact (proj1 (stringify_then_parse
                  (JArr [JStr "a"; JNull; JObj [("k", JBool true)]])
                  (Str.dq "['a',null,{'k':true}]") eq_refl)).
Defined.

(** X23 A catalog whose categories and items hold strings where their types
    say so is written to the store by the persistence effect, under the key
    the initializer reads; the other keys of the store keep their values; and
    the initializer of the next start reads the same catalog back, whatever
    the built-in catalog is. *)
Theorem persisted_catalog_reloads (host : Host) (INITIAL cats : list Category.t)
    (store : gmap string string) :
  is_catalog (catalog_to_js cats) = true →
  ∃ store',
    persist cats store = Some store'
    ∧ (∀ k, k ≠ "kids_joy_v5_data" → store' !! k = store !! k)
    ∧ initial_categories host INITIAL store' = Normal (catalog_to_js cats).
Proof.
  intros H. destruct (catalog_text _ H) as [text Ht].
  destruct (stringify_document _ _ Ht) as (Hp & Hne).
  exists (<["kids_joy_v5_data" := text]> store). unfold persist. rewrite Ht.
  split; [reflexivity|]. split.
  - intros k Hk. now rewrite lookup_insert_ne.
  - unfold initial_categories. rewrite lookup_insert_eq.
    apply String.eqb_neq in Hne. now rewrite Hne, Hp.
Qed.

Lemma persisted_catalog_reloads_witness :
  ∃ store',
    persist Ex.catalog Ex.store_cut = Some store'
    ∧ (∀ k, k ≠ "kids_joy_v5_data" → store' !! k = Ex.store_cut !! k)
    ∧ initial_categories Ex.host_ok [] store' = Normal (catalog_to_js Ex.catalog).
Proof. apply (persisted_catalog_reloads Ex.host_ok [] Ex.catalog Ex.store_cut). reflexivity. Defined.

(** X24 The two revisions of App.tsx keep their catalogs under different
    keys: a catalog saved by the first revision is not seen by the second,
    which starts from the built-in catalog when its own key holds nothing;
    and what the second revision saves leaves the record of the first as it
    was. *)
Theorem revisions_keep_separate_catalogs (host : Host)
    (INITIAL cats : list Category.t) (store store' : gmap string string) :
  store !! "kids_joy_v9_data" = None →
  persist cats store = Some store' →
  V9Store.initial_categories host INITIAL store' = Normal (catalog_to_js INITIAL)
  ∧ ∀ cats' store'', V9Store.persist cats' store' = Some store'' →
      initial_categories host INITIAL store'' = initial_categories host INITIAL store'.
Proof.
  unfold persist, V9Store.persist. intros Hnone H.
  destruct (Stringify.stringify (catalog_to_js cats)) as [text|]; [|discriminate].
  injection H as <-. split.
  - unfold V9Store.initial_categories. rewrite lookup_insert_ne by done.
    now rewrite Hnone.
  - intros cats' store'' H.
    destruct (Stringify.stringify (catalog_to_js cats')) as [text'|]; [|discriminate].
    injection H as <-. unfold initial_categories.
    now rewrite (lookup_insert_ne _ "kids_joy_v9_data" "kids_joy_v5_data") by done.
Qed.

Lemma revisions_keep_separate_catalogs_witness :
  ∃ store',
    persist Ex.catalog ∅ = Some store'
    ∧ V9Store.initial_categories Ex.host_ok [] store' = Normal (catalog_to_js [])
    ∧ ∀ cats' store'', V9Store.persist cats' store' = Some store'' →
        initial_categories Ex.host_ok [] store''
        = initial_categories Ex.host_ok [] store'.
Proof.
  eexists. split; [reflexivity|].
  apply (revisions_keep_separate_catalogs Ex.host_ok [] Ex.catalog ∅); reflexivity.
Defined.
